(** * syslogviewer: the live tail engine of [app.py]

    A shallow embedding of the log tailing helpers ([send_last_lines],
    [tail_file_background]) and of the Socket.IO handlers ([on_join],
    [on_leave], [on_disconnect]) of [app.py], with the properties of the
    specification stated over it; then of the rest of [app.py]: the file
    list ([list_log_files], [_sanitize_filename]), the folder store and its
    routes, [load_auth], and the session checks.

    Modelling conventions.
    - A file is the sequence of its bytes, [list ascii].  The text layer of
      [open(path, "r", errors="replace")] is taken with a single-byte codec
      (an ASCII log file): one byte is one character, so the integer offsets
      that [tell] and [seek] exchange are character offsets too.  Universal
      newlines are modelled: on input ["\r\n"] and ["\r"] become ["\n"].
    - [str.splitlines] and [os.path.join] are Python built-ins; they are
      modelled here from their documented behaviour.
    - [tail_threads] maps a room to the address of a dict object in a heap,
      so that a write through an old reference ([old["stop"] = True]) and a
      rebinding of the key ([tail_threads[room] = {...}]) stay distinct.
    - Threads are interleaved at the granularity of the lock: one step of a
      worker runs [tail_file_background] from one of its program points to
      the next; a handler runs as one step.
    - The content of a file is taken to be ASCII where a statement speaks
      of its lines or of white space ([ascii_text]): on such bytes every
      codec that [open] may use decodes alike, and [is_linebreak] and
      [is_space] are all of [str.splitlines] and [str.strip].
    - [join_room], [leave_room], the delivery of an emission to the members
      of a room, and the removal of a disconnecting connection from its rooms
      are the event channel's; they are modelled from its documentation.
    - Files are created and grow; none is removed or truncated, and a read
      on an open file does not fail.  The only failure of a file operation
      is that of [open] on a path that has no file. *)

From Stdlib Require Import ZArith Ascii String Lia.
From stdpp Require Import gmap strings list sorting.

(** ** Text: newline translation, [splitlines], slices *)

Module Text.

Definition LF : ascii := "010"%char.
Definition VT : ascii := "011"%char.
Definition FF : ascii := "012"%char.
Definition CR : ascii := "013"%char.
Definition FS : ascii := "028"%char.
Definition GS : ascii := "029"%char.
Definition RS : ascii := "030"%char.

Definition text := list ascii.

Definition str (s : string) : text := list_ascii_of_string s.

(** The ASCII characters at which [str.splitlines] breaks a line.  Beyond
    ASCII it also breaks at U+0085, U+2028 and U+2029, which [ascii_text]
    excludes. *)
Definition is_linebreak (c : ascii) : bool :=
  existsb (Ascii.eqb c) [LF; VT; FF; CR; FS; GS; RS].

(** Universal newlines on input: a ["\r"] is delivered as ["\n"], and a
    ["\n"] that directly follows a ["\r"] is dropped.  [after_cr] is the
    decoder's pending-CR flag. *)
Fixpoint translate_from (after_cr : bool) (s : text) : text :=
  match s with
  | [] => []
  | c :: s' =>
      if Ascii.eqb c CR then LF :: translate_from true s'
      else if after_cr && Ascii.eqb c LF then translate_from false s'
      else c :: translate_from false s'
  end.

Definition translate_newlines (s : text) : text := translate_from false s.

(** [str.splitlines()] (keepends false): the text is cut after every line
    break, ["\r\n"] counting as one break; the breaks are removed; a text
    that ends in a break has no empty last line. *)
Fixpoint splitlines_from (after_cr : bool) (s : text) : list text :=
  match s with
  | [] => []
  | c :: s' =>
      if after_cr && Ascii.eqb c LF then splitlines_from false s'
      else if is_linebreak c then [] :: splitlines_from (Ascii.eqb c CR) s'
      else match splitlines_from false s' with
           | [] => [[c]]
           | l :: ls => (c :: l) :: ls
           end
  end.

Definition splitlines (s : text) : list text := splitlines_from false s.

(** The slice [l[-n:]] of Python: for [n > 0] the last [n] elements (all of
    them when there are fewer); [-0] is [0], so [l[-0:]] is [l[0:]], the
    whole list; for [n < 0] the slice starts at index [-n]. *)
Definition slice_last {A} (n : Z) (l : list A) : list A :=
  if (0 <? n)%Z then drop (length l - Z.to_nat n) l
  else drop (Z.to_nat (- n)) l.

(** [fh.readline()] on the bytes that lie after the read cursor: the line
    up to and including its terminator (delivered as ["\n"]), or whatever
    is left when the file ends before a terminator; with it the number of
    bytes consumed. *)
Fixpoint readline (s : text) : text * nat :=
  match s with
  | [] => ([], 0)
  | c :: s' =>
      if Ascii.eqb c LF then ([LF], 1)
      else if Ascii.eqb c CR then
        match s' with
        | c' :: _ => if Ascii.eqb c' LF then ([LF], 2) else ([LF], 1)
        | [] => ([LF], 1)
        end
      else let '(l, k) := readline s' in (c :: l, S k)
  end.

End Text.

Import Text.

(** Text of ASCII characters: bytes below 128. *)
Definition ascii_text (s : text) : Prop :=
  Forall (λ c, (N_of_ascii c < 128)%N) s.

(** Text whose only line break characters are newlines. *)
Definition newline_text (s : text) : Prop :=
  Forall (λ c, is_linebreak c = true → c = LF) s.

(** Following the specification's words, the newline-delimited lines of a
    text: the text is cut after every ["\n"], the ["\n"] removed; what
    follows the last ["\n"] is a line when it is not empty. *)
Fixpoint newline_lines (s : text) : list text :=
  match s with
  | [] => []
  | c :: s' =>
      if Ascii.eqb c LF then [] :: newline_lines s'
      else match newline_lines s' with
           | [] => [[c]]
           | l :: ls => (c :: l) :: ls
           end
  end.

(** ** Paths *)

Definition LOG_DIR : string := "/var/log".

Definition startswith_sep (s : string) : bool :=
  match s with
  | String c _ => Ascii.eqb c "/"
  | EmptyString => false
  end.

Fixpoint endswith_sep (s : string) : bool :=
  match s with
  | EmptyString => false
  | String c EmptyString => Ascii.eqb c "/"
  | String _ s' => endswith_sep s'
  end.

(** [os.path.join(a, b)] of [posixpath]: an absolute [b] replaces [a]; else
    [b] is appended, after a ["/"] unless [a] is empty or ends in one. *)
Definition os_path_join (a b : string) : string :=
  if startswith_sep b then b
  else if String.eqb a "" || endswith_sep a then (a ++ b)%string
  else (a ++ "/" ++ b)%string.

(** The path starts with ["/var/log/"]: a test on the text of the path.
    A path that fails it and has no [".."] is outside [LOG_DIR]. *)
Definition under_log_dir (path : string) : bool :=
  String.prefix (LOG_DIR ++ "/")%string path.

(** ** Snapshot scan of [send_last_lines] *)

Definition block : Z := 4096%Z.

(** [fh.seek(size); fh.read()] *)
Definition read_from (content : text) (size : Z) : text :=
  translate_newlines (drop (Z.to_nat size) content).

(** The loop
    [while len(data.splitlines()) <= n and size > 0:
         size = max(0, size - block); fh.seek(size); data = fh.read()]
    returns the final [size] and [data]; [None] when the fuel is used up. *)
Fixpoint scan_back (fuel : nat) (content : text) (n size : Z) (data : text)
  : option (Z * text) :=
  if (Z.of_nat (length (splitlines data)) <=? n)%Z && (0 <? size)%Z then
    match fuel with
    | O => None
    | S fuel' =>
        let size' := Z.max 0 (size - block)%Z in
        scan_back fuel' content n size' (read_from content size')
    end
  else Some (size, data).

(** One iteration per block of the file, and one to leave the loop. *)
Definition scan_fuel (content : text) : nat :=
  S (S (Z.to_nat (Z.of_nat (length content) / block)%Z)).

(** [fh.seek(0, os.SEEK_END); size = fh.tell(); block = 4096; data = ""]
    and the loop. *)
Definition scan (content : text) (n : Z) : option (Z * text) :=
  scan_back (scan_fuel content) content n (Z.of_nat (length content)) [].

(** [lines = data.splitlines()[-n:]] *)
Definition last_lines (content : text) (n : Z) : option (list text) :=
  match scan content n with
  | Some (_, data) => Some (slice_last n (splitlines data))
  | None => None
  end.

(** The lines of a file as the code cuts them: [splitlines] of its whole
    text.  On [newline_text] they are its [newline_lines]. *)
Definition file_lines (content : text) : list text :=
  splitlines (translate_newlines content).

(** ** Events, registry, threads *)

Definition sid := nat.

Inductive event :=
  | Joined (file : string)
  | LogLine (file : string) (line : text)
  | LogError (file : string) (error : string).

(** [emit(...)] inside a handler answers the calling connection;
    [socketio.emit(..., room=room)] goes to every member of the room. *)
Inductive target :=
  | ToSid (c : sid)
  | ToRoom (room : string).

(** A value of [tail_threads]: [{"thread": Thread, "stop": bool, "file": str}] *)
Record entry := Entry { e_thread : option nat; e_stop : bool; e_file : string }.

(** Program points of [tail_file_background]. *)
Inductive pc :=
  | AtOpen      (* before [open(path, ...)] and [fh.seek(0, os.SEEK_END)] *)
  | AtLoopTop   (* before [with thread_lock: info = tail_threads.get(room)] *)
  | AtRead      (* before [line = fh.readline()] *)
  | AtCleanup   (* before the [finally] block *)
  | Exited.

Record worker := Worker { w_file : string; w_room : string; w_pc : pc; w_pos : nat }.

Record state := State {
  fs : gmap string text;              (* path -> bytes of the file *)
  members : gmap string (list sid);   (* rooms of the event channel *)
  heap : list entry;                  (* the dict objects made by [on_join] *)
  tail_threads : gmap string nat;     (* room -> address in [heap] *)
  threads : list worker;              (* started threads, by thread id *)
  sent : list (target * event);       (* every emission, oldest first *)
  inbox : list (sid * event)          (* every delivery, oldest first *)
}.

Definition init (files : gmap string text) : state :=
  State files ∅ [] ∅ [] [] [].

Definition set_members (f : gmap string (list sid)) (st : state) : state :=
  State (fs st) f (heap st) (tail_threads st) (threads st) (sent st) (inbox st).
Definition set_heap (h : list entry) (st : state) : state :=
  State (fs st) (members st) h (tail_threads st) (threads st) (sent st) (inbox st).
Definition set_tail_threads (t : gmap string nat) (st : state) : state :=
  State (fs st) (members st) (heap st) t (threads st) (sent st) (inbox st).
Definition set_threads (w : list worker) (st : state) : state :=
  State (fs st) (members st) (heap st) (tail_threads st) w (sent st) (inbox st).
Definition set_fs (f : gmap string text) (st : state) : state :=
  State f (members st) (heap st) (tail_threads st) (threads st) (sent st) (inbox st).

(** The bytes of the file at [path], when there is one: what [open] finds. *)
Definition file_at (st : state) (path : string) : option text := fs st !! path.

Definition room_members (st : state) (room : string) : list sid :=
  default [] (members st !! room).

(** [socketio.emit(name, payload, room=room)] *)
Definition socketio_emit (ev : event) (room : string) (st : state) : state :=
  State (fs st) (members st) (heap st) (tail_threads st) (threads st)
        (sent st ++ [(ToRoom room, ev)])
        (inbox st ++ map (λ c, (c, ev)) (room_members st room)).

(** [emit(name, payload)] in the handler of connection [c] *)
Definition emit (ev : event) (c : sid) (st : state) : state :=
  State (fs st) (members st) (heap st) (tail_threads st) (threads st)
        (sent st ++ [(ToSid c, ev)]) (inbox st ++ [(c, ev)]).

Definition join_room (c : sid) (room : string) (st : state) : state :=
  let ms := room_members st room in
  if bool_decide (c ∈ ms) then st
  else set_members (<[room := ms ++ [c]]> (members st)) st.

Definition leave_room (c : sid) (room : string) (st : state) : state :=
  match members st !! room with
  | Some ms => set_members (<[room := filter (λ x, x ≠ c) ms]> (members st)) st
  | None => st
  end.

(** What connection [c] has received, oldest first. *)
Definition received (c : sid) (st : state) : list event :=
  map snd (filter (λ p, p.1 = c) (inbox st)).

(** [str(e)] of the [FileNotFoundError] that [open] raises. *)
Definition no_such_file (path : string) : string :=
  ("[Errno 2] No such file or directory: '" ++ path ++ "'")%string.

(** ** [send_last_lines] *)

Definition send_last_lines (filename room : string) (n : Z) (st : state) : state :=
  let path := os_path_join LOG_DIR filename in
  match file_at st path with
  | None => socketio_emit (LogError filename (no_such_file path)) room st
  | Some content =>
      match last_lines content n with
      | Some lines =>
          foldl (λ s line, socketio_emit (LogLine filename (line ++ [LF])) room s) st lines
      | None => st
      end
  end.

(** ** [tail_file_background], one program point at a time *)

Definition set_pc (tid : nat) (w : worker) (p : pc) (st : state) : state :=
  set_threads (<[tid := Worker (w_file w) (w_room w) p (w_pos w)]> (threads st)) st.

Definition set_pos_pc (tid : nat) (w : worker) (pos : nat) (p : pc) (st : state) : state :=
  set_threads (<[tid := Worker (w_file w) (w_room w) p pos]> (threads st)) st.

(** [info = tail_threads.get(room)] followed by [not info or info.get("stop")].
    An address stored in [tail_threads] always names a dict of the heap, so
    the inner [None] does not arise in a run. *)
Definition must_stop (room : string) (st : state) : bool :=
  match tail_threads st !! room with
  | None => true
  | Some a =>
      match heap st !! a with
      | Some e => e_stop e
      | None => true
      end
  end.

Definition worker_step (tid : nat) (st : state) : state :=
  match threads st !! tid with
  | None => st
  | Some w =>
      let path := os_path_join LOG_DIR (w_file w) in
      match w_pc w with
      | AtOpen =>
          match file_at st path with
          | None =>
              set_pc tid w AtCleanup
                (socketio_emit (LogError (w_file w) (no_such_file path)) (w_room w) st)
          | Some content => set_pos_pc tid w (length content) AtLoopTop st
          end
      | AtLoopTop =>
          if must_stop (w_room w) st then set_pc tid w AtCleanup st
          else set_pc tid w AtRead st
      | AtRead =>
          let '(line, k) := readline (drop (w_pos w) (default [] (file_at st path))) in
          match line with
          | [] => set_pc tid w AtLoopTop st
          | _ :: _ =>
              set_pos_pc tid w (w_pos w + k) AtLoopTop
                (socketio_emit (LogLine (w_file w) line) (w_room w) st)
          end
      | AtCleanup =>
          set_pc tid w Exited (set_tail_threads (delete (w_room w) (tail_threads st)) st)
      | Exited => st
      end
  end.

(** ** Socket.IO handlers *)

(** [old["stop"] = True] on the dict at address [a] *)
Definition mark_stop (a : nat) (st : state) : state :=
  match heap st !! a with
  | Some e => set_heap (<[a := Entry (e_thread e) true (e_file e)]> (heap st)) st
  | None => st
  end.

(** The critical section of [on_join]. *)
Definition replace_worker (filename room : string) (st : state) : state :=
  let st1 := match tail_threads st !! room with
             | Some a => mark_stop a st
             | None => st
             end in
  let a := length (heap st1) in
  let st2 := set_tail_threads (<[room := a]> (tail_threads st1))
               (set_heap (heap st1 ++ [Entry None false filename]) st1) in
  let tid := length (threads st2) in
  let st3 := set_heap (<[a := Entry (Some tid) false filename]> (heap st2)) st2 in
  set_threads (threads st3 ++ [Worker filename room AtOpen 0]) st3.

(** [data.get("file")] is [None] when the key is missing. *)
Definition on_join (c : sid) (file : option string) (st : state) : state :=
  match file with
  | None => st
  | Some filename =>
      if String.eqb filename "" then st
      else
        let room := filename in
        let st := join_room c room st in
        let st := emit (Joined filename) c st in
        let st := send_last_lines filename room 200%Z st in
        replace_worker filename room st
  end.

Definition on_leave (c : sid) (file : option string) (st : state) : state :=
  match file with
  | None => st
  | Some filename =>
      if String.eqb filename "" then st
      else
        let room := filename in
        let st := leave_room c room st in
        match tail_threads st !! room with
        | Some a => mark_stop a st
        | None => st
        end
  end.

(** [def on_disconnect(): pass] *)
Definition on_disconnect (c : sid) (st : state) : state := st.

(** What the Socket.IO server does itself with a connection that
    disconnects: it takes the sid out of every room. *)
Definition leave_all_rooms (c : sid) (st : state) : state :=
  set_members (filter (λ x, x ≠ c) <$> members st) st.

(** ** Runs: handlers, worker steps and appends to files, interleaved *)

Definition append_file (path : string) (bytes : text) (st : state) : state :=
  set_fs (<[path := default [] (file_at st path) ++ bytes]> (fs st)) st.

Inductive action :=
  | Join (c : sid) (file : option string)
  | Leave (c : sid) (file : option string)
  | Disconnect (c : sid)
  | Step (tid : nat)
  | Append (path : string) (bytes : text).

Definition step (st : state) (a : action) : state :=
  match a with
  | Join c f => on_join c f st
  | Leave c f => on_leave c f st
  | Disconnect c => on_disconnect c (leave_all_rooms c st)
  | Step tid => worker_step tid st
  | Append p b => append_file p b st
  end.

Definition run (st : state) (l : list action) : state := foldl step st l.

(** The lines that connection [c] has received for a file, oldest first. *)
Definition lines_of (file : string) (evs : list event) : list text :=
  omap (λ ev, match ev with
              | LogLine f l => if String.eqb f file then Some l else None
              | _ => None
              end) evs.

Definition errors_to (room : string) (l : list (target * event)) : list string :=
  omap (λ p, match p with
             | (ToRoom r, LogError _ e) => if String.eqb r room then Some e else None
             | _ => None
             end) l.

Definition lines_to (room : string) (l : list (target * event)) : list text :=
  omap (λ p, match p with
             | (ToRoom r, LogLine _ x) => if String.eqb r room then Some x else None
             | _ => None
             end) l.

(** ** Definitions used by the statements *)

Definition nlines (d : text) : Z := Z.of_nat (length (splitlines d)).

(** [ends_like x y]: [y] has at least as many lines as [x], and the same
    lines from the second line of [x] on. *)
Definition ends_like (x y : list text) : Prop :=
  (length x ≤ length y) ∧ ∃ q, y = q ++ tail x.

Definition snapshot_events (filename : string) (lines : list text) : list event :=
  map (λ line, LogLine filename (line ++ [LF])) lines.

Definition deliveries (ms : list sid) (evs : list event) : list (sid * event) :=
  flat_map (λ ev, map (λ c, (c, ev)) ms) evs.

(** What [send_last_lines] emits in a state: the snapshot, or the error. *)
Definition snapshot_output (filename : string) (n : Z) (st : state) : list event :=
  let path := os_path_join LOG_DIR filename in
  match file_at st path with
  | None => [LogError filename (no_such_file path)]
  | Some content =>
      match last_lines content n with
      | Some lines => snapshot_events filename lines
      | None => []
      end
  end.

(** The actions of a run in which one worker tails one file: steps of the
    worker, and appends of text without ["\r"] to the file. *)
Definition is_tail_action (tid : nat) (path : string) (a : action) : Prop :=
  match a with
  | Step t => t = tid
  | Append p b => p = path ∧ CR ∉ b
  | _ => False
  end.

(** A payload of the worker: not empty, and with no ["\n"] before its last
    character. *)
Definition line_or_partial (x : text) : Prop :=
  x ≠ [] ∧ ∀ i, x !! i = Some LF → S i = length x.

Definition tail_events (w : worker) (chunks : list text) : list (target * event) :=
  map (λ x, (ToRoom (w_room w), LogLine (w_file w) x)) chunks.

(** What holds of a tailing worker [w] that started its run at state [st0],
    in a later state [st]. *)
Definition tail_inv (tid : nat) (w : worker) (st0 st : state) : Prop :=
  let path := os_path_join LOG_DIR (w_file w) in
  ∃ w' content' chunks,
    threads st !! tid = Some w' ∧ w_pc w' ≠ AtOpen ∧
    w_file w' = w_file w ∧ w_room w' = w_room w ∧
    file_at st path = Some content' ∧ (CR ∉ content') ∧
    (w_pos w ≤ w_pos w') ∧ (w_pos w' ≤ length content') ∧
    sent st = sent st0 ++ tail_events w chunks ∧
    concat chunks = take (w_pos w' - w_pos w) (drop (w_pos w) content') ∧
    Forall line_or_partial chunks.

(** The bytes appended in a run. *)
Definition appended (path : string) (l : list action) : text :=
  concat (omap (λ a, match a with
                     | Append p b => if String.eqb p path then Some b else None
                     | _ => None
                     end) l).

(** ** States and files of the examples *)

Definition snap_state : state :=
  init {[ "/var/log/app.log"%string := str "a" ++ [LF] ++ str "b" ++ [LF] ++ str "c" ++ [LF] ]}.

Definition passwd_state : state :=
  init {[ "/etc/passwd"%string := str "root:x:0:0" ++ [LF] ]}.

Definition tailing_state : state :=
  run snap_state [Join 1 (Some "app.log"%string); Step 0].

Definition two_subscribers : state :=
  run snap_state
    [Join 1 (Some "app.log"%string); Join 2 (Some "app.log"%string); Step 0; Step 1].

(** Worker 0 was told to stop and is before its [finally] block; meanwhile
    a new join has put worker 1 and a fresh, unstopped entry in its place. *)
Definition replaced_state : state :=
  run snap_state
    [Join 1 (Some "app.log"%string); Step 0; Leave 1 (Some "app.log"%string); Step 0;
     Join 1 (Some "app.log"%string); Step 1].

Definition empty_log_state : state :=
  run (init {[ "/var/log/app.log"%string := [] ]}) [Join 1 (Some "app.log"%string); Step 0].

(** A file of more than four blocks: a short line, then a line of 20000
    bytes. *)
Definition long_second_line : text :=
  str "a" ++ [LF] ++ concat (replicate 4 (replicate 5000 "b"%char)) ++ [LF].

(** A file of one newline-delimited line that holds a form feed. *)
Definition form_feed_line : text := str "x" ++ [FF] ++ str "y" ++ [LF].

Definition form_feed_state : state :=
  init {[ "/var/log/app.log"%string := form_feed_line ]}.

(** ** Invariants of runs *)

(** Every room of [tail_threads] names a dict of the heap that was made for
    that room and that records a started thread tailing the room's file. *)
Definition registry_ok (st : state) : Prop :=
  ∀ room a, tail_threads st !! room = Some a →
    ∃ e tid w, heap st !! a = Some e ∧ e_file e = room ∧ e_thread e = Some tid ∧
               threads st !! tid = Some w ∧ w_room w = room ∧ w_file w = room.

(** A join that gets past [if not filename: return]. *)
Definition starts_worker (a : action) : bool :=
  match a with
  | Join _ (Some filename) => negb (String.eqb filename "")
  | _ => false
  end.

(** A line as [splitlines] yields it: without any line break character. *)
Definition break_free (l : text) : Prop :=
  Forall (λ c, is_linebreak c = false) l.

(** The text of a file written line by line, each line ended by ["\n"]. *)
Definition join_lines (ls : list text) : text :=
  concat (map (λ l, l ++ [LF]) ls).

(** The empty log of [empty_log_state] after two lines were appended. *)
Definition two_appended_state : state :=
  run empty_log_state
    [Append "/var/log/app.log" (join_lines [str "ab"; str "cd"])].

(** ** File names: [_sanitize_filename] and [list_log_files] *)

Definition ALLOWED : list string := [".log"; ""]%string.

(** [c in s] *)
Fixpoint str_contains (c : ascii) (s : string) : bool :=
  match s with
  | EmptyString => false
  | String c' s' => Ascii.eqb c' c || str_contains c s'
  end.

(** [os.path.basename(p)]: what follows the last ["/"] of [p]. *)
Fixpoint basename (p : string) : string :=
  match p with
  | EmptyString => EmptyString
  | String c p' =>
      if str_contains "/" p' then basename p'
      else if Ascii.eqb c "/" then p'
      else p
  end.

(** [s] cut before its last ["."]: what lies before, and the rest from the
    dot on. *)
Fixpoint split_last_dot (s : string) : option (string * string) :=
  match s with
  | EmptyString => None
  | String c s' =>
      match split_last_dot s' with
      | Some (before, ext) => Some (String c before, ext)
      | None => if Ascii.eqb c "." then Some (EmptyString, s) else None
      end
  end.

Fixpoint all_dots (s : string) : bool :=
  match s with
  | EmptyString => true
  | String c s' => Ascii.eqb c "." && all_dots s'
  end.

(** [os.path.splitext(p)]: the extension starts at the last dot of the last
    path component, unless only dots come before it in that component. *)
Definition splitext (p : string) : string * string :=
  match split_last_dot (basename p) with
  | Some (before, ext) =>
      if all_dots before then (p, EmptyString)
      else (String.substring 0 (String.length p - String.length ext) p, ext)
  | None => (p, EmptyString)
  end.

(** [ext in ALLOWED] *)
Definition allowed_ext (ext : string) : bool := existsb (String.eqb ext) ALLOWED.

Definition _sanitize_filename (fname : string) : option string :=
  if negb (String.eqb (basename fname) fname) then None
  else
    let '(_, ext) := splitext fname in
    if negb (allowed_ext ext) then None
    else Some fname.

(** [os.path.isfile(path)]: the files of the model are regular files. *)
Definition isfile (st : state) (path : string) : bool :=
  match file_at st path with
  | Some _ => true
  | None => false
  end.

(** The order of [str] by code points, which [list.sort] uses. *)
Definition string_le (a b : string) : Prop := String.leb a b = true.

#[global] Instance string_le_dec : RelDecision string_le.
Proof. intros a b. unfold string_le. apply _. Defined.

(** [listing] is what [os.listdir(LOG_DIR)] returns, [None] when it raises:
    the [except] clause then leaves [files] empty. *)
Definition list_log_files (listing : option (list string)) (st : state) : list string :=
  let files :=
    match listing with
    | None => []
    | Some entries =>
        filter (λ entry, isfile st (os_path_join LOG_DIR entry) = true ∧
                         allowed_ext (splitext entry).2 = true) entries
    end in
  merge_sort string_le files.

(** ** The folder store and its routes *)

(** The store is a JSON file.  [folder_store] is the dict that [json.load]
    reads from it, [None] when the file is missing or does not load;
    [store_writable] tells whether [open(FOLDER_STORE, "w")] succeeds. *)
Record disk := Disk {
  folder_store : option (gmap string (list string));
  store_writable : bool
}.

Definition _load_folders (d : disk) : gmap string (list string) :=
  default ∅ (folder_store d).

Definition _save_folders (data : gmap string (list string)) (d : disk) : bool * disk :=
  if store_writable d then (true, Disk (Some data) true) else (false, d).

(** The answer of a route: [{"ok": True}], or an error with its status. *)
Inductive response :=
  | RespOk
  | RespError (msg : string) (code : nat).

(** [l.remove(x)] when [x in l]: the first occurrence goes. *)
Fixpoint list_remove (x : string) (l : list string) : list string :=
  match l with
  | [] => []
  | y :: l' => if String.eqb y x then l' else y :: list_remove x l'
  end.

Definition folders_create (name : string) (d : disk) : response * disk :=
  if String.eqb name "" || str_contains "/" name || str_contains "\" name
  then (RespError "invalid folder name" 400, d)
  else
    let folders := _load_folders d in
    match folders !! name with
    | Some _ => (RespError "exists" 400, d)
    | None => (RespOk, (_save_folders (<[name := []]> folders) d).2)
    end.

Definition folders_delete (name : string) (d : disk) : response * disk :=
  let folders := _load_folders d in
  match folders !! name with
  | None => (RespError "not found" 404, d)
  | Some _ => (RespOk, (_save_folders (delete name folders) d).2)
  end.

Definition folders_move (st : state) (file target : string) (d : disk)
  : response * disk :=
  match _sanitize_filename file with
  | None => (RespError "invalid file" 400, d)
  | Some file =>
      if String.eqb file "" then (RespError "invalid file" 400, d)
      else if negb (isfile st (os_path_join LOG_DIR file))
      then (RespError "file not found" 404, d)
      else
        let folders := list_remove file <$> _load_folders d in
        if String.eqb target "" then (RespOk, (_save_folders folders d).2)
        else
          match folders !! target with
          | None => (RespError "target folder not found" 404, d)
          | Some l =>
              let folders :=
                if bool_decide (file ∈ l) then folders
                else <[target := l ++ [file]]> folders in
              (RespOk, (_save_folders folders d).2)
          end
  end.

Definition folders_list (d : disk) : gmap string (list string) := _load_folders d.

(** [logs_list]: the folders with the files that are still listed, and the
    listed files that no folder holds. *)
Definition logs_list (listing : option (list string)) (st : state) (d : disk)
  : gmap string (list string) * list string :=
  let files := list_log_files listing st in
  let folders := filter (λ f, f ∈ files) <$> _load_folders d in
  let assigned := concat (map snd (map_to_list folders)) in
  (folders, filter (λ f, f ∉ assigned) files).

(** ** States of the examples for the file lists *)

Definition log_dir_state : state :=
  init {[ "/var/log/b.log"%string := []; "/var/log/a.log"%string := [];
          "/var/log/syslog"%string := []; "/var/log/x.gz"%string := [] ]}.

Definition log_dir_listing : option (list string) :=
  Some ["syslog"; "b.log"; "nginx"; "x.gz"; "a.log"]%string.

(** Every folder of the store holds a file at most once. *)
Definition store_ok (d : disk) : Prop :=
  ∀ k l, _load_folders d !! k = Some l → NoDup l.

Definition two_folders : disk :=
  Disk (Some {[ "web"%string := ["a.log"]%string; "db"%string := [] ]}) true.

(** ** [load_auth] *)

(** [str.isspace] on ASCII: tab to carriage return, the separators [\x1c]
    to [\x1f], and the space.  Beyond ASCII there are more (U+0085, U+00A0
    and others), which [ascii_text] excludes. *)
Definition is_space (c : ascii) : bool :=
  let n := N_of_ascii c in
  ((9 <=? n) && (n <=? 13) || (28 <=? n) && (n <=? 31) || (n =? 32))%N.

Fixpoint lstrip (s : text) : text :=
  match s with
  | [] => []
  | c :: s' => if is_space c then lstrip s' else s
  end.

(** [s.strip()] *)
Definition strip (s : text) : text := reverse (lstrip (reverse (lstrip s))).

(** [s.split("=", 1)] for an [s] that holds an ["="]: what is before the
    first ["="], and what is after it. *)
Fixpoint split_eq (s : text) : option (text * text) :=
  match s with
  | [] => None
  | c :: s' =>
      if Ascii.eqb c "=" then Some ([], s')
      else match split_eq s' with
           | Some (k, v) => Some (c :: k, v)
           | None => None
           end
  end.

(** [for line in f]: the lines that successive [readline] calls return,
    until one returns the empty string. *)
Fixpoint file_iter (fuel : nat) (s : text) : list text :=
  match fuel with
  | O => []
  | S fuel' =>
      match readline s with
      | ([], _) => []
      | (line, k) => line :: file_iter fuel' (drop k s)
      end
  end.

(** Every call consumes a byte, so the length of the file is fuel enough. *)
Definition readlines (s : text) : list text := file_iter (length s) s.

(** The body of the loop: [if "=" in line: k, v = line.strip().split("=", 1);
    data[k] = v]. *)
Definition auth_line (data : gmap string string) (line : text) : gmap string string :=
  if existsb (Ascii.eqb "=") line then
    match split_eq (strip line) with
    | Some (k, v) => <[string_of_list_ascii k := string_of_list_ascii v]> data
    | None => data
    end
  else data.

Definition auth_data (content : text) : gmap string string :=
  foldl auth_line ∅ (readlines content).

(** [auth_env] is the content of [AUTH_ENV], [None] when the file does not
    exist; the result is [None] when [load_auth] raises [RuntimeError]. *)
Definition load_auth (auth_env : option text) : option (option string * option string) :=
  match auth_env with
  | None => None
  | Some content =>
      let data := auth_data content in
      Some (data !! "USERNAME"%string, data !! "PASSWORD_HASH"%string)
  end.

Definition auth_head : text :=
  str "# credentials" ++ [LF] ++ str "PASSWORD_HASH=scrypt:32768$ab=cd" ++ [LF].

(** An action that is not a join request of connection [c]. *)
Definition not_join_of (c : sid) (a : action) : Prop :=
  match a with
  | Join c' _ => c' ≠ c
  | _ => True
  end.

(** ** Sessions: [login_required], [login], [logout], [ws_connect] *)

(** What [load_auth] returned, and [werkzeug]'s [check_password_hash], which
    is not code of this repository: [None] when it raises. *)
Record auth := Auth {
  AUTH_USER : option string;
  AUTH_PW_HASH : option string;
  check_password_hash : option string → string → option bool
}.

(** The two keys of the Flask session that the code reads; an absent
    ["logged_in"] is [false], an absent ["user"] is [None]. *)
Record session := Session { logged_in : bool; user : option string }.

(** The test of the wrapper: [fn] runs when it is [true], else the request
    is redirected to the login page. *)
Definition login_required (a : auth) (s : session) : bool :=
  logged_in s && bool_decide (user s = AUTH_USER a).

(** [true] when ["connected"] is emitted, [false] when the socket is
    disconnected. *)
Definition ws_connect (a : auth) (s : session) : bool :=
  if negb (logged_in s) || negb (bool_decide (user s = AUTH_USER a)) then false
  else true.

Inductive login_answer :=
  | LoginPage (flashed : bool)
  | Redirect
  | ServerError.

(** [post] is [None] for a GET, else the form's username and password. *)
Definition login (a : auth) (post : option (string * string)) (s : session)
  : login_answer * session :=
  match post with
  | None => (LoginPage false, s)
  | Some (u, pw) =>
      if bool_decide (Some u = AUTH_USER a) then
        match check_password_hash a (AUTH_PW_HASH a) pw with
        | Some true => (Redirect, Session true (Some u))
        | Some false => (LoginPage true, s)
        | None => (ServerError, s)
        end
      else (LoginPage true, s)
  end.

Definition logout (s : session) : login_answer * session :=
  (Redirect, Session false None).

Inductive request :=
  | Login (post : option (string * string))
  | Logout.

Definition serve (a : auth) (s : session) (r : request) : session :=
  match r with
  | Login post => (login a post s).2
  | Logout => (logout s).2
  end.

Definition demo_auth : auth :=
  Auth (Some "admin"%string) (Some "hash"%string)
       (λ h pw, Some (String.eqb pw "secret")).

(** ** A reader that keeps up with the writer *)

(** After each append the worker runs until it has read the appended bytes:
    a stop check and a [readline] for every line there is to read. *)
Definition drain_schedule (tid : nat) (path : string) (bs : list text) : list action :=
  flat_map (λ b, Append path b :: replicate (2 * length (readlines b)) (Step tid)) bs.

(** * Properties *)


Example splitlines_ex1 : splitlines (str "a" ++ [LF] ++ str "bc" ++ [LF]) = [str "a"; str "bc"].
Proof. reflexivity. Qed.

Example splitlines_ex2 : splitlines (str "a" ++ [LF; LF] ++ str "b") = [str "a"; []; str "b"].
Proof. reflexivity. Qed.

Example splitlines_ex3 : splitlines (str "a" ++ [CR; LF] ++ str "b" ++ [CR] ++ str "c") = [str "a"; str "b"; str "c"].
Proof. reflexivity. Qed.

Example splitlines_ex4 : splitlines [] = [] /\ splitlines [LF] = [[]].
Proof. split; reflexivity. Qed.

Example slice_last_ex : slice_last 2 [1; 2; 3] = [2; 3] /\ slice_last 5 [1; 2; 3] = [1; 2; 3]
  /\ slice_last 0 [1; 2; 3] = [1; 2; 3] /\ slice_last (-1)%Z [1; 2; 3] = [2; 3].
Proof. repeat split; reflexivity. Qed.

Example readline_ex : readline (str "ab" ++ [CR; LF] ++ str "c") = (str "ab" ++ [LF], 4)
  /\ readline (str "hel") = (str "hel", 3).
Proof. split; reflexivity. Qed.

(** ** Text lemmas *)

Section TextFacts.

Implicit Types (s p : text) (c : ascii).

Lemma translate_from_true_not_LF c s :
  Ascii.eqb c LF = false →
  translate_from true (c :: s) = translate_from false (c :: s).
Proof. intros H. simpl. by rewrite H. Qed.

(** Reading from a later offset yields a suffix of the translated text. *)
Lemma translate_from_app p s :
  (∃ q, translate_from false (p ++ s) = q ++ translate_from false s) ∧
  (∃ q, LF :: translate_from true (p ++ s) = q ++ translate_from false s).
Proof.
  induction p as [|c p [[q1 IH1] [q2 IH2]]]; simpl.
  - split; [by exists []|].
    destruct s as [|c s]; [by exists [LF]|].
    destruct (Ascii.eqb c LF) eqn:E.
    + apply Ascii.eqb_eq in E as ->. by exists [].
    + exists [LF]. by rewrite translate_from_true_not_LF.
  - destruct (Ascii.eqb c CR) eqn:E; simpl.
    + split; [by exists q2|]. exists (LF :: q2). by rewrite IH2.
    + split; [exists (c :: q1); by rewrite IH1|].
      destruct (Ascii.eqb c LF).
      * exists (LF :: q1). by rewrite IH1.
      * exists (LF :: c :: q1). by rewrite IH1.
Qed.

Lemma translate_newlines_suffix p s :
  ∃ q, translate_newlines (p ++ s) = q ++ translate_newlines s.
Proof. apply translate_from_app. Qed.

Lemma splitlines_from_true_not_LF c s :
  Ascii.eqb c LF = false →
  splitlines_from true (c :: s) = splitlines_from false (c :: s).
Proof. intros H. simpl. by rewrite H. Qed.

Lemma ends_like_refl x : ends_like x x.
Proof. split; [lia|]. exists (take 1 x). by destruct x. Qed.

Lemma ends_like_cons l x y : ends_like x y → ends_like x (l :: y).
Proof. intros [H [q ->]]. split; [simpl; lia|]. by exists (l :: q). Qed.

Lemma ends_like_head c x y :
  ends_like x y →
  ends_like x (match y with [] => [[c]] | l :: ls => (c :: l) :: ls end).
Proof.
  intros [H [q ->]]. destruct q as [|l q]; simpl.
  - destruct x as [|l x]; simpl in *; [|lia].
    split; [simpl; lia|]. by exists [[c]].
  - split; [simpl in *; lia|]. by exists ((c :: l) :: q).
Qed.

Lemma splitlines_from_app p s :
  ends_like (splitlines_from false s) (splitlines_from false (p ++ s)) ∧
  ends_like (splitlines_from false s) ([] :: splitlines_from true (p ++ s)).
Proof.
  induction p as [|c p [IH1 IH2]].
  - split; [apply ends_like_refl|]. simpl.
    destruct s as [|c s]; [apply ends_like_cons, ends_like_refl|].
    destruct (Ascii.eqb c LF) eqn:E.
    + simpl. rewrite E. simpl.
      assert (is_linebreak c = true) as ->
        by (apply Ascii.eqb_eq in E as ->; reflexivity).
      apply Ascii.eqb_eq in E as ->. apply ends_like_refl.
    + rewrite splitlines_from_true_not_LF by done.
      apply ends_like_cons, ends_like_refl.
  - assert (ends_like (splitlines_from false s)
              (splitlines_from false ((c :: p) ++ s))) as HA.
    { simpl. destruct (is_linebreak c) eqn:B.
      - destruct (Ascii.eqb c CR); [done|]. by apply ends_like_cons.
      - by apply ends_like_head. }
    split; [done|].
    destruct (Ascii.eqb c LF) eqn:E.
    + simpl. rewrite E. simpl. by apply ends_like_cons.
    + rewrite <- app_comm_cons, splitlines_from_true_not_LF by done.
      by apply ends_like_cons.
Qed.

Lemma splitlines_suffix p s : ends_like (splitlines s) (splitlines (p ++ s)).
Proof. apply splitlines_from_app. Qed.

(** The lines of the text read from any offset, against the lines of the
    file. *)
Lemma read_from_ends_like content size :
  ends_like (splitlines (read_from content size)) (file_lines content).
Proof.
  unfold read_from, file_lines.
  rewrite <- (take_drop (Z.to_nat size) content) at 2.
  destruct (translate_newlines_suffix (take (Z.to_nat size) content)
              (drop (Z.to_nat size) content)) as [q ->].
  apply splitlines_suffix.
Qed.

Lemma slice_last_ends_like (x y : list text) n :
  ends_like x y → (0 < n)%Z → (n < Z.of_nat (length x))%Z →
  slice_last n x = slice_last n y.
Proof.
  intros [Hl [q ->]] Hn Hx. unfold slice_last.
  assert ((0 <? n)%Z = true) as -> by (apply Z.ltb_lt; lia).
  destruct x as [|l x]; simpl in *; [lia|].
  rewrite length_app.
  replace (S (length x) - Z.to_nat n) with (S (length x - Z.to_nat n)) by lia.
  simpl. rewrite drop_app_ge by lia. f_equal. lia.
Qed.

End TextFacts.

(** ** The backward scan of [send_last_lines] *)

Section Scan.

Variables (content : text) (n : Z).

Lemma scan_back_unfold fuel size data :
  scan_back fuel content n size data =
  if (nlines data <=? n)%Z && (0 <? size)%Z then
    match fuel with
    | O => None
    | S fuel' =>
        scan_back fuel' content n (Z.max 0 (size - block))
          (read_from content (Z.max 0 (size - block)))
    end
  else Some (size, data).
Proof. by destruct fuel. Qed.

(** The loop ends: every iteration moves the frontier one block down. *)
Lemma scan_back_total fuel : ∀ size data,
  (size ≤ block * Z.of_nat fuel)%Z →
  is_Some (scan_back fuel content n size data).
Proof.
  unfold block. induction fuel as [|fuel IH]; intros size data Hs;
    rewrite scan_back_unfold.
  - assert ((0 <? size)%Z = false) as -> by (apply Z.ltb_ge; lia).
    rewrite andb_false_r. eauto.
  - destruct (_ && _); [|eauto]. apply IH. unfold block. lia.
Qed.

(** Where the loop stops, and with which text. *)
Lemma scan_back_offset fuel : ∀ size data off d,
  scan_back fuel content n size data = Some (off, d) →
  (0 ≤ size)%Z →
  (off = size ∧ d = data) ∨
  (∃ k, (1 ≤ k)%Z ∧ off = Z.max 0 (size - k * block) ∧ d = read_from content off).
Proof.
  induction fuel as [|fuel IH]; intros size data off d;
    rewrite scan_back_unfold; destruct (_ && _); try done.
  - intros [= <- <-] _. by left.
  - intros H Hs. right. apply IH in H as [[-> ->]|(k & Hk & -> & ->)]; [| |lia].
    + exists 1%Z. split; [lia|]. split; [f_equal; lia|done].
    + exists (k + 1)%Z. split; [lia|]. unfold block. split; [lia|done].
  - intros [= <- <-] _. by left.
Qed.

(** The loop leaves only with more than [n] lines in hand or at offset 0. *)
Lemma scan_back_exit fuel : ∀ size data off d,
  scan_back fuel content n size data = Some (off, d) →
  (n < nlines d)%Z ∨ (off ≤ 0)%Z.
Proof.
  induction fuel as [|fuel IH]; intros size data off d;
    rewrite scan_back_unfold; destruct (_ && _) eqn:E; try done; eauto.
  all: intros [= <- <-]; apply andb_false_iff in E as [E|E];
    [left; apply Z.leb_gt in E; lia | right; apply Z.ltb_ge in E; lia].
Qed.

(** It stops at the first frontier that leaves more than [n] lines... *)
Lemma scan_back_first fuel : ∀ size data off d k,
  scan_back fuel content n size data = Some (off, d) →
  (1 ≤ k)%Z → (0 < size - k * block)%Z →
  (n < nlines (read_from content (size - k * block)))%Z →
  (size - k * block ≤ off)%Z.
Proof.
  unfold block.
  induction fuel as [|fuel IH]; intros size data off d k;
    rewrite scan_back_unfold; destruct (_ && _); try done.
  - intros [= <- <-]. lia.
  - intros H Hk Hpos Hn.
    replace (Z.max 0 (size - block)) with (size - block)%Z in H
      by (unfold block; lia).
    destruct (decide (k = 1%Z)) as [->|Hk1].
    + rewrite scan_back_unfold in H.
      replace (size - 1 * 4096)%Z with (size - block)%Z in * by (unfold block; lia).
      assert ((nlines (read_from content (size - block)) <=? n)%Z = false) as E
        by (apply Z.leb_gt; lia).
      rewrite E in H. simpl in H. injection H as <- <-. lia.
    + specialize (IH _ _ _ _ (k - 1)%Z H).
      replace (size - block - (k - 1) * 4096)%Z with (size - k * 4096)%Z in IH
        by (unfold block; lia).
      apply IH; [lia|lia|done].
  - intros [= <- <-]. lia.
Qed.

(** ... and every frontier it passed left at most [n] lines. *)
Lemma scan_back_passed fuel : ∀ size data off d k,
  scan_back fuel content n size data = Some (off, d) →
  (1 ≤ k)%Z → (0 ≤ off)%Z → (off < size - k * block)%Z →
  (nlines (read_from content (size - k * block)) ≤ n)%Z.
Proof.
  unfold block.
  induction fuel as [|fuel IH]; intros size data off d k;
    rewrite scan_back_unfold; destruct (_ && _); try done.
  - intros [= <- <-]. lia.
  - intros H Hk Hoff Hlt.
    replace (Z.max 0 (size - block)) with (size - block)%Z in H
      by (unfold block; lia).
    destruct (decide (k = 1%Z)) as [->|Hk1].
    + rewrite scan_back_unfold in H.
      replace (size - 1 * 4096)%Z with (size - block)%Z in * by (unfold block; lia).
      destruct (nlines (read_from content (size - block)) <=? n)%Z eqn:E;
        [apply Z.leb_le in E; lia|].
      simpl in H. injection H as <- <-. lia.
    + specialize (IH _ _ _ _ (k - 1)%Z H).
      replace (size - block - (k - 1) * 4096)%Z with (size - k * 4096)%Z in IH
        by (unfold block; lia).
      apply IH; lia.
  - intros [= <- <-]. lia.
Qed.

Lemma scan_total : is_Some (scan content n).
Proof.
  apply scan_back_total. unfold scan_fuel, block.
  pose proof (Z.mul_succ_div_gt (Z.of_nat (length content)) 4096 ltac:(lia)).
  pose proof (Z.div_pos (Z.of_nat (length content)) 4096 ltac:(lia) ltac:(lia)).
  lia.
Qed.

End Scan.

Lemma read_from_0 content : read_from content 0 = translate_newlines content.
Proof. reflexivity. Qed.

Lemma scan_spec content n :
  (0 < n)%Z →
  ∃ off, scan content n = Some (off, read_from content off) ∧
         (0 ≤ off ≤ Z.of_nat (length content))%Z ∧
         ((n < nlines (read_from content off))%Z ∨ off = 0%Z) ∧
         (off = 0%Z ∨ ∃ k, (1 ≤ k)%Z ∧ off = (Z.of_nat (length content) - k * block)%Z).
Proof.
  intros Hn. destruct (scan_total content n) as [[off d] H]. exists off.
  pose proof (scan_back_exit _ _ _ _ _ _ _ H) as Hex.
  apply scan_back_offset in H as Hoff; [|lia].
  destruct Hoff as [[-> ->]|(k & Hk & -> & ->)].
  - destruct Hex as [Hex|Hex]; [unfold nlines in Hex; simpl in Hex; lia|].
    destruct content; [|simpl in Hex; lia].
    rewrite H. repeat split; simpl; try lia; auto.
  - rewrite H. unfold block in *. split; [done|]. split; [lia|].
    split; [destruct Hex; [by left|right; lia]|].
    destruct (decide (0 < Z.of_nat (length content) - k * 4096)%Z);
      [right; exists k; lia | left; lia].
Qed.

(** The snapshot is the slice [[-n:]] of the lines of the whole file. *)
Lemma last_lines_spec content n :
  (0 < n)%Z → last_lines content n = Some (slice_last n (file_lines content)).
Proof.
  intros Hn. destruct (scan_spec content n Hn) as (off & H & Hr & Hex & _).
  unfold last_lines. rewrite H. f_equal.
  destruct Hex as [Hex| ->]; [|done].
  apply slice_last_ends_like; [apply read_from_ends_like|done|done].
Qed.

Lemma slice_last_all {A} (l : list A) n :
  (0 < n)%Z → (Z.of_nat (length l) ≤ n)%Z → slice_last n l = l.
Proof.
  intros Hn Hl. unfold slice_last.
  assert ((0 <? n)%Z = true) as -> by (apply Z.ltb_lt; lia).
  replace (length l - Z.to_nat n) with 0 by lia. done.
Qed.

Lemma slice_last_length {A} (l : list A) n :
  (0 < n)%Z → (n < Z.of_nat (length l))%Z →
  slice_last n l = drop (length l - Z.to_nat n) l ∧
  Z.of_nat (length (slice_last n l)) = n.
Proof.
  intros Hn Hl. unfold slice_last.
  assert ((0 <? n)%Z = true) as -> by (apply Z.ltb_lt; lia).
  split; [done|]. rewrite length_drop. lia.
Qed.

(** A file of 3000 two-byte lines: with [n = 2] the scan stops after one
    block, at offset 6000 - 4096. *)
Example scan_large_file :
  fst <$> scan (concat (replicate 3000 (str "x" ++ [LF]))) 2 = Some 1904%Z.
Proof. vm_compute. reflexivity. Qed.

(** ** [send_last_lines] on a state *)

Lemma send_lines_fold filename room lines : ∀ st,
  foldl (λ s line, socketio_emit (LogLine filename (line ++ [LF])) room s) st lines =
  State (fs st) (members st) (heap st) (tail_threads st) (threads st)
    (sent st ++ map (λ ev, (ToRoom room, ev)) (snapshot_events filename lines))
    (inbox st ++ deliveries (room_members st room) (snapshot_events filename lines)).
Proof.
  induction lines as [|l lines IH]; intros st; simpl.
  - rewrite !app_nil_r. by destruct st.
  - rewrite IH. unfold socketio_emit, room_members; simpl.
    by rewrite <- !app_assoc.
Qed.

Lemma send_last_lines_readable filename room n content st :
  (0 < n)%Z →
  file_at st (os_path_join LOG_DIR filename) = Some content →
  send_last_lines filename room n st =
  State (fs st) (members st) (heap st) (tail_threads st) (threads st)
    (sent st ++ map (λ ev, (ToRoom room, ev))
       (snapshot_events filename (slice_last n (file_lines content))))
    (inbox st ++ deliveries (room_members st room)
       (snapshot_events filename (slice_last n (file_lines content)))).
Proof.
  intros Hn Hf. unfold send_last_lines. rewrite Hf, last_lines_spec by done.
  apply send_lines_fold.
Qed.

(** On text whose only line breaks are newlines, the decoder changes
    nothing and [splitlines] cuts the newline-delimited lines. *)
Lemma newline_text_translate s : newline_text s → translate_newlines s = s.
Proof.
  unfold translate_newlines.
  induction 1 as [|c s Hc Hs IH]; simpl; [done|].
  destruct (Ascii.eqb c CR) eqn:E; [|by rewrite IH].
  apply Ascii.eqb_eq in E as ->. by specialize (Hc eq_refl).
Qed.

Lemma newline_text_splitlines s : newline_text s → splitlines s = newline_lines s.
Proof.
  unfold splitlines.
  induction 1 as [|c s Hc Hs IH]; simpl; [done|].
  destruct (is_linebreak c) eqn:E.
  - rewrite (Hc eq_refl). simpl. by rewrite IH.
  - assert (Ascii.eqb c LF = false) as ->.
    { apply Ascii.eqb_neq. intros ->. done. }
    by rewrite IH.
Qed.

Lemma newline_text_file_lines s : newline_text s → file_lines s = newline_lines s.
Proof.
  intros Hs. unfold file_lines.
  by rewrite newline_text_translate, newline_text_splitlines.
Qed.

Lemma newline_text_read_from s off :
  newline_text s →
  read_from s off = drop (Z.to_nat off) s ∧
  nlines (read_from s off) =
    Z.of_nat (length (newline_lines (drop (Z.to_nat off) s))).
Proof.
  intros Hs. assert (newline_text (drop (Z.to_nat off) s)) as Hd
    by by apply Forall_drop.
  unfold nlines, read_from.
  by rewrite newline_text_translate, newline_text_splitlines.
Qed.

(** The offset of the last [fh.seek]: the size less a number of blocks,
    clipped at 0. *)
Lemma scan_offset content n :
  (0 < n)%Z →
  ∃ k off, (1 ≤ k)%Z ∧
    off = Z.max 0 (Z.of_nat (length content) - k * block) ∧
    scan content n = Some (off, read_from content off).
Proof.
  intros Hn. destruct (scan_total content n) as [[off d] H].
  pose proof (scan_back_exit _ _ _ _ _ _ _ H) as Hex.
  apply scan_back_offset in H as Hoff; [|lia].
  destruct Hoff as [[-> ->]|(k & Hk & -> & ->)].
  - destruct Hex as [Hex|Hex]; [unfold nlines in Hex; simpl in Hex; lia|].
    destruct content; [|simpl in Hex; lia].
    exists 1%Z, 0%Z. by rewrite H.
  - exists k. eexists. by rewrite H.
Qed.

(** C5, as stated, fails.  A file of 20002 bytes, more than four blocks,
    has two lines; with N = 1 no block boundary before the end leaves more
    than one line behind it, so the scan ends at offset 0 and the last
    [fh.read()] returns the whole file.  And a file of one newline-delimited line that holds a form feed
    is cut at the form feed: with N = 1 only the text after it is emitted. *)
Lemma snapshot_reads_whole_large_file :
  (4 * block < Z.of_nat (length long_second_line))%Z ∧
  (1 < Z.of_nat (length (newline_lines long_second_line)))%Z ∧
  fst <$> scan long_second_line 1 = Some 0%Z ∧
  newline_lines form_feed_line = [str "x" ++ [FF] ++ str "y"] ∧
  sent (send_last_lines "app.log" "app.log" 1 form_feed_state) =
    [(ToRoom "app.log", LogLine "app.log" (str "y" ++ [LF]))].
Proof.
  split; [vm_compute; reflexivity|]. split; [vm_compute; reflexivity|].
  split; [vm_compute; reflexivity|]. split; vm_compute; reflexivity.
Qed.

(** C5 (amended): for a readable file of ASCII text whose only line break
    characters are newlines, and for N > 0, the snapshot reader emits to the
    room the newline-delimited lines of the file when there are at most N,
    and exactly the last N, in order, when there are more.  The last
    [fh.read()] starts at an offset [max(0, size - 4096 k)] with [k ≥ 1];
    this offset is 0 (the whole file is read) exactly when no frontier
    [size - 4096 j > 0] leaves more than N lines behind it, and so for every
    file of at most 4096 bytes. *)
Theorem send_last_lines_snapshot filename room n content st :
  (0 < n)%Z →
  file_at st (os_path_join LOG_DIR filename) = Some content →
  ascii_text content → newline_text content →
  let all := newline_lines content in
  let size := Z.of_nat (length content) in
  ((Z.of_nat (length all) ≤ n)%Z →
     sent (send_last_lines filename room n st) =
       sent st ++ map (λ ev, (ToRoom room, ev)) (snapshot_events filename all)) ∧
  ((n < Z.of_nat (length all))%Z →
     sent (send_last_lines filename room n st) =
       sent st ++ map (λ ev, (ToRoom room, ev))
         (snapshot_events filename (drop (length all - Z.to_nat n) all)) ∧
     Z.of_nat (length (drop (length all - Z.to_nat n) all)) = n) ∧
  ∃ k off, (1 ≤ k)%Z ∧ off = Z.max 0 (size - k * block) ∧
    scan content n = Some (off, drop (Z.to_nat off) content) ∧
    (off = 0%Z ↔
       ∀ j, (1 ≤ j)%Z → (0 < size - j * block)%Z →
         (Z.of_nat (length (newline_lines
            (drop (Z.to_nat (size - j * block)) content))) ≤ n)%Z) ∧
    ((size ≤ block)%Z → off = 0%Z).
Proof.
  intros Hn Hf _ Hnl all size.
  assert (sent (send_last_lines filename room n st) =
          sent st ++ map (λ ev, (ToRoom room, ev))
            (snapshot_events filename (slice_last n all))) as Hsent.
  { rewrite (send_last_lines_readable _ _ _ content) by done. simpl.
    by rewrite newline_text_file_lines. }
  split; [intros Hle; by rewrite Hsent, slice_last_all|].
  split.
  { intros Hlt. destruct (slice_last_length all n Hn Hlt) as [Hs Hl].
    rewrite Hsent, Hs in *. done. }
  destruct (scan_offset content n Hn) as (k & off & Hk & Hoff & H).
  destruct (scan_spec content n Hn) as (off' & H' & Hr & Hex & _).
  rewrite H in H'. injection H' as <-.
  exists k, off. split; [done|]. split; [done|].
  split; [by rewrite H, (proj1 (newline_text_read_from content off Hnl))|].
  split; [|intros Hsz; unfold size, block in *; lia].
  split.
  - intros -> j Hj Hpos.
    rewrite <- (proj2 (newline_text_read_from content _ Hnl)).
    apply (scan_back_passed _ _ _ _ _ _ _ j H); unfold size in *; lia.
  - intros Hall.
    destruct (decide (0 < size - k * block)%Z) as [Hp|Hp]; [|lia].
    destruct Hex as [Hex|Hex]; [|done].
    specialize (Hall k Hk Hp).
    rewrite <- (proj2 (newline_text_read_from content _ Hnl)) in Hall.
    replace off with (size - k * block)%Z in Hex by lia. lia.
Qed.

Lemma send_last_lines_snapshot_witness :
  sent (send_last_lines "app.log" "app.log" 2 snap_state) =
    [(ToRoom "app.log", LogLine "app.log" (str "b" ++ [LF]));
     (ToRoom "app.log", LogLine "app.log" (str "c" ++ [LF]))] ∧
  scan (str "a" ++ [LF] ++ str "b" ++ [LF] ++ str "c" ++ [LF]) 2 =
    Some (0%Z, str "a" ++ [LF] ++ str "b" ++ [LF] ++ str "c" ++ [LF]).
Proof.
  destruct (send_last_lines_snapshot "app.log" "app.log" 2
              (str "a" ++ [LF] ++ str "b" ++ [LF] ++ str "c" ++ [LF]) snap_state)
    as (_ & H & k & off & _ & _ & Hscan & _ & H0).
  - lia.
  - reflexivity.
  - apply (bool_decide_unpack _). vm_compute. exact I.
  - apply (bool_decide_unpack _). vm_compute. exact I.
  - split.
    + apply H. vm_compute. reflexivity.
    + rewrite Hscan, H0; [reflexivity|vm_compute; discriminate].
Defined.

(** ** [n = 0] *)

Lemma translate_newlines_nonempty s : s ≠ [] → translate_newlines s ≠ [].
Proof.
  destruct s as [|c s]; [done|]. intros _. unfold translate_newlines. simpl.
  by destruct (Ascii.eqb c CR).
Qed.

Lemma splitlines_nonempty s : s ≠ [] → splitlines s ≠ [].
Proof.
  destruct s as [|c s]; [done|]. intros _. unfold splitlines. simpl.
  destruct (is_linebreak c); [done|]. by destruct (splitlines_from false s).
Qed.

(** With [n = 0] the slice [[-0:]] keeps every line of the last block. *)
Lemma last_lines_0 content :
  content ≠ [] →
  last_lines content 0 =
    Some (splitlines (read_from content (Z.max 0 (Z.of_nat (length content) - block)))) ∧
  splitlines (read_from content (Z.max 0 (Z.of_nat (length content) - block))) ≠ [].
Proof.
  intros Hc.
  assert (splitlines (read_from content (Z.max 0 (Z.of_nat (length content) - block))) ≠ [])
    as Hne.
  { apply splitlines_nonempty, translate_newlines_nonempty.
    intros E. apply (f_equal length) in E. rewrite length_drop in E. simpl in E.
    destruct content; [done|]. unfold block in E. simpl in E. lia. }
  split; [|done].
  unfold last_lines, scan, scan_fuel. rewrite scan_back_unfold.
  assert ((0 <? Z.of_nat (length content))%Z = true) as ->
    by (apply Z.ltb_lt; destruct content; [done|simpl; lia]).
  simpl "&&". cbv iota. rewrite scan_back_unfold.
  assert ((nlines (read_from content (Z.max 0 (Z.of_nat (length content) - block))) <=? 0)%Z
          = false) as ->.
  { apply Z.leb_gt. unfold nlines.
    destruct (splitlines _); [done|simpl; lia]. }
  done.
Qed.

(** C7: called with [n = 0] on a readable file of three lines,
    [send_last_lines] emits three line events, not an empty result. *)
Theorem send_last_lines_n0_emits_all :
  sent (send_last_lines "app.log" "app.log" 0 snap_state) =
    [(ToRoom "app.log", LogLine "app.log" (str "a" ++ [LF]));
     (ToRoom "app.log", LogLine "app.log" (str "b" ++ [LF]));
     (ToRoom "app.log", LogLine "app.log" (str "c" ++ [LF]))].
Proof. reflexivity. Qed.

(** ** The handlers *)

Lemma send_last_lines_eq filename room n st :
  send_last_lines filename room n st =
  State (fs st) (members st) (heap st) (tail_threads st) (threads st)
    (sent st ++ map (λ ev, (ToRoom room, ev)) (snapshot_output filename n st))
    (inbox st ++ deliveries (room_members st room) (snapshot_output filename n st)).
Proof.
  unfold send_last_lines, snapshot_output.
  destruct (file_at st _) as [content|].
  - destruct (last_lines content n).
    + apply send_lines_fold.
    + simpl. rewrite !app_nil_r. by destruct st.
  - unfold socketio_emit. simpl. by rewrite app_nil_r.
Qed.

Lemma join_room_proj c room st :
  fs (join_room c room st) = fs st ∧ heap (join_room c room st) = heap st ∧
  tail_threads (join_room c room st) = tail_threads st ∧
  threads (join_room c room st) = threads st ∧
  sent (join_room c room st) = sent st ∧ inbox (join_room c room st) = inbox st.
Proof. unfold join_room. by case_bool_decide. Qed.

Lemma join_room_members c room st :
  room_members (join_room c room st) room =
  if bool_decide (c ∈ room_members st room) then room_members st room
  else room_members st room ++ [c].
Proof.
  unfold join_room. case_bool_decide; [done|].
  unfold room_members, set_members. simpl. by rewrite lookup_insert_eq.
Qed.

Lemma join_room_member c room st : c ∈ room_members (join_room c room st) room.
Proof.
  rewrite join_room_members. case_bool_decide; [done|].
  apply elem_of_app. right. by apply list_elem_of_singleton.
Qed.

Lemma mark_stop_proj a st :
  fs (mark_stop a st) = fs st ∧ members (mark_stop a st) = members st ∧
  tail_threads (mark_stop a st) = tail_threads st ∧
  threads (mark_stop a st) = threads st ∧
  sent (mark_stop a st) = sent st ∧ inbox (mark_stop a st) = inbox st ∧
  length (heap (mark_stop a st)) = length (heap st).
Proof.
  unfold mark_stop. destruct (heap st !! a); [|done].
  simpl. by rewrite length_insert.
Qed.

Lemma replace_worker_proj filename room st :
  fs (replace_worker filename room st) = fs st ∧
  members (replace_worker filename room st) = members st ∧
  sent (replace_worker filename room st) = sent st ∧
  inbox (replace_worker filename room st) = inbox st ∧
  threads (replace_worker filename room st) =
    threads st ++ [Worker filename room AtOpen 0] ∧
  tail_threads (replace_worker filename room st) =
    <[room := length (heap st)]> (tail_threads st) ∧
  heap (replace_worker filename room st) !! length (heap st) =
    Some (Entry (Some (length (threads st))) false filename).
Proof.
  unfold replace_worker.
  destruct (tail_threads st !! room) as [a|]; simpl.
  - destruct (mark_stop_proj a st) as (-> & -> & -> & -> & -> & -> & Hlen).
    rewrite Hlen. repeat split; try done.
    rewrite list_lookup_insert_eq; [done|]. rewrite length_app. simpl. lia.
  - repeat split; try done.
    rewrite list_lookup_insert_eq; [done|]. rewrite length_app. simpl. lia.
Qed.

Lemma on_join_eq c filename st :
  filename ≠ ""%string →
  on_join c (Some filename) st =
  replace_worker filename filename
    (State (fs st) (members (join_room c filename st)) (heap st) (tail_threads st)
       (threads st)
       (sent st ++ (ToSid c, Joined filename) ::
          map (λ ev, (ToRoom filename, ev)) (snapshot_output filename 200 st))
       (inbox st ++ (c, Joined filename) ::
          deliveries (room_members (join_room c filename st) filename)
            (snapshot_output filename 200 st))).
Proof.
  intros Hne. unfold on_join.
  assert (String.eqb filename "" = false) as -> by by apply String.eqb_neq.
  rewrite send_last_lines_eq. f_equal.
  destruct (join_room_proj c filename st) as (Hfs & Hh & Ht & Hth & Hs & Hi).
  unfold emit, snapshot_output, room_members. simpl.
  rewrite Hfs, Hh, Ht, Hth, Hs, Hi, <- !app_assoc. done.
Qed.

Lemma received_deliveries c (ms : list sid) evs :
  NoDup ms →
  map snd (filter (λ p : sid * event, p.1 = c) (deliveries ms evs)) =
  if bool_decide (c ∈ ms) then evs else [].
Proof.
  intros Hnd. induction evs as [|ev evs IH]; simpl.
  - by case_bool_decide.
  - rewrite filter_app, map_app, IH.
    assert (map snd (filter (λ p : sid * event, p.1 = c) (map (λ c0, (c0, ev)) ms))
            = if bool_decide (c ∈ ms) then [ev] else []) as ->.
    { clear IH. induction Hnd as [|x ms Hx Hnd IH]; simpl; [done|].
      rewrite filter_cons. simpl. destruct (decide (x = c)) as [->|Hxc]; simpl.
      - rewrite IH, (bool_decide_eq_true_2 (c ∈ c :: ms)) by by left.
        by rewrite bool_decide_eq_false_2.
      - rewrite IH. case_bool_decide as H1.
        + rewrite bool_decide_eq_true_2; [done|by right].
        + rewrite bool_decide_eq_false_2; [done|].
          intros [->|?]%elem_of_cons; done. }
    by case_bool_decide.
Qed.

Lemma snapshot_output_readable filename n content st :
  (0 < n)%Z →
  file_at st (os_path_join LOG_DIR filename) = Some content →
  snapshot_output filename n st =
  snapshot_events filename (slice_last n (file_lines content)).
Proof.
  intros Hn Hf. unfold snapshot_output. by rewrite Hf, last_lines_spec.
Qed.

Lemma snapshot_output_missing filename n st :
  file_at st (os_path_join LOG_DIR filename) = None →
  snapshot_output filename n st =
  [LogError filename (no_such_file (os_path_join LOG_DIR filename))].
Proof. intros Hf. unfold snapshot_output. by rewrite Hf. Qed.

Lemma join_room_NoDup c room st :
  NoDup (room_members st room) → NoDup (room_members (join_room c room st) room).
Proof.
  intros Hnd. rewrite join_room_members. case_bool_decide; [done|].
  apply NoDup_app. split; [done|]. split; [|apply NoDup_singleton].
  intros x Hx ->%list_elem_of_singleton. done.
Qed.

Lemma received_on_join c c' filename st :
  filename ≠ ""%string → NoDup (room_members st filename) →
  received c' (on_join c (Some filename) st) =
  received c' st ++
    (if decide (c' = c) then [Joined filename] else []) ++
    (if bool_decide (c' ∈ room_members (join_room c filename st) filename)
     then snapshot_output filename 200 st else []).
Proof.
  intros Hne Hnd. rewrite on_join_eq by done. unfold received.
  destruct (replace_worker_proj filename filename
    (State (fs st) (members (join_room c filename st)) (heap st) (tail_threads st)
       (threads st)
       (sent st ++ (ToSid c, Joined filename) ::
          map (λ ev, (ToRoom filename, ev)) (snapshot_output filename 200 st))
       (inbox st ++ (c, Joined filename) ::
          deliveries (room_members (join_room c filename st) filename)
            (snapshot_output filename 200 st)))) as (_ & _ & _ & -> & _).
  simpl. rewrite filter_app, map_app, filter_cons. simpl. f_equal.
  rewrite <- (received_deliveries c' _ (snapshot_output filename 200 st))
    by by apply join_room_NoDup.
  destruct (decide (c = c')) as [->|?].
  - by rewrite decide_True.
  - by rewrite decide_False.
Qed.

(** C6, as stated, fails: connection 1 is in the room when connection 2
    joins, and receives the snapshot made for that join. *)
Lemma join_snapshot_reaches_subscribers :
  ¬ (∀ st c c' filename, c' ≠ c → c' ∈ room_members st filename →
       received c' (on_join c (Some filename) st) = received c' st).
Proof.
  intros H.
  specialize (H (on_join 1 (Some "app.log"%string) snap_state) 2 1 "app.log"%string).
  vm_compute in H. specialize (H ltac:(done) ltac:(by left)). done.
Qed.

(** C6 (amended): the snapshot of a join is emitted to the whole room: a
    connection that is already subscribed receives every snapshot event of
    another connection's join; a connection outside the room receives nothing;
    the [joined] acknowledgement alone goes to the joining connection only. *)
Theorem on_join_snapshot_to_room c c' filename st :
  filename ≠ ""%string → c' ≠ c → NoDup (room_members st filename) →
  received c' (on_join c (Some filename) st) =
    received c' st ++
    (if bool_decide (c' ∈ room_members st filename)
     then snapshot_output filename 200 st else []) ∧
  received c (on_join c (Some filename) st) =
    received c st ++ Joined filename :: snapshot_output filename 200 st.
Proof.
  intros Hne Hc Hnd. rewrite !received_on_join by done. split.
  - rewrite decide_False by done. simpl. f_equal.
    rewrite join_room_members.
    destruct (bool_decide (c ∈ room_members st filename)); [done|].
    destruct (bool_decide (c' ∈ room_members st filename)) eqn:E.
    + apply bool_decide_eq_true in E.
      rewrite bool_decide_eq_true_2; [done|]. apply elem_of_app. by left.
    + apply bool_decide_eq_false in E.
      rewrite bool_decide_eq_false_2; [done|].
      intros [?| ->%list_elem_of_singleton]%elem_of_app; done.
  - rewrite decide_True by done.
    rewrite bool_decide_eq_true_2 by apply join_room_member. done.
Qed.

Lemma on_join_snapshot_to_room_witness :
  received 1 (on_join 2 (Some "app.log"%string)
                (on_join 1 (Some "app.log"%string) snap_state)) =
  received 1 (on_join 1 (Some "app.log"%string) snap_state) ++
    [LogLine "app.log" (str "a" ++ [LF]); LogLine "app.log" (str "b" ++ [LF]);
     LogLine "app.log" (str "c" ++ [LF])].
Proof.
  destruct (on_join_snapshot_to_room 2 1 "app.log"%string
              (on_join 1 (Some "app.log"%string) snap_state)) as [H _].
  - done.
  - done.
  - vm_compute. apply NoDup_singleton.
  - rewrite H. reflexivity.
Defined.

(** ** Steps of a tail worker *)

Lemma worker_step_loop_top tid w st :
  threads st !! tid = Some w → w_pc w = AtLoopTop →
  worker_step tid st =
  set_pc tid w (if must_stop (w_room w) st then AtCleanup else AtRead) st.
Proof.
  intros Hw Hpc. unfold worker_step. rewrite Hw, Hpc.
  by destruct (must_stop (w_room w) st).
Qed.

Lemma worker_step_cleanup tid w st :
  threads st !! tid = Some w → w_pc w = AtCleanup →
  worker_step tid st =
  set_pc tid w Exited (set_tail_threads (delete (w_room w) (tail_threads st)) st).
Proof. intros Hw Hpc. unfold worker_step. by rewrite Hw, Hpc. Qed.

Lemma worker_step_exited tid w st :
  threads st !! tid = Some w → w_pc w = Exited → worker_step tid st = st.
Proof. intros Hw Hpc. unfold worker_step. by rewrite Hw, Hpc. Qed.

Lemma worker_step_open_missing tid w st :
  threads st !! tid = Some w → w_pc w = AtOpen →
  file_at st (os_path_join LOG_DIR (w_file w)) = None →
  worker_step tid st =
  set_pc tid w AtCleanup
    (socketio_emit
       (LogError (w_file w) (no_such_file (os_path_join LOG_DIR (w_file w))))
       (w_room w) st).
Proof.
  intros Hw Hpc Hf. unfold worker_step. rewrite Hw. simpl.
  by rewrite Hpc, Hf.
Qed.

Lemma worker_step_open tid w content st :
  threads st !! tid = Some w → w_pc w = AtOpen →
  file_at st (os_path_join LOG_DIR (w_file w)) = Some content →
  worker_step tid st = set_pos_pc tid w (length content) AtLoopTop st.
Proof.
  intros Hw Hpc Hf. unfold worker_step. rewrite Hw. simpl.
  by rewrite Hpc, Hf.
Qed.

Lemma set_pc_thread tid w p st :
  threads st !! tid = Some w →
  threads (set_pc tid w p st) !! tid = Some (Worker (w_file w) (w_room w) p (w_pos w)).
Proof.
  intros Hw. unfold set_pc. simpl.
  apply list_lookup_insert_eq. by eapply lookup_lt_Some.
Qed.

Lemma set_pc_other tid tid' w p st :
  tid ≠ tid' → threads (set_pc tid w p st) !! tid' = threads st !! tid'.
Proof. intros Hne. unfold set_pc. simpl. by apply list_lookup_insert_ne. Qed.

(** Once in the [finally] block a worker emits nothing more. *)
Lemma worker_finished_silent tid st k :
  (∃ w, threads st !! tid = Some w ∧ (w_pc w = AtCleanup ∨ w_pc w = Exited)) →
  sent (Nat.iter k (worker_step tid) st) = sent st ∧
  ∃ w, threads (Nat.iter k (worker_step tid) st) !! tid = Some w ∧
       (w_pc w = AtCleanup ∨ w_pc w = Exited).
Proof.
  intros H. induction k as [|k [IHs (w & Hw & Hpc)]]; [done|]. simpl.
  destruct Hpc as [Hpc|Hpc].
  - rewrite (worker_step_cleanup _ w) by done. split; [done|].
    eexists. split; [apply set_pc_thread|]; [|by right].
    done.
  - rewrite (worker_step_exited _ w) by done. split; [done|]. eauto.
Qed.

(** C3, as stated, fails: a join for a missing file is answered by two
    error events to the room, the second from the tail worker that the join
    starts all the same. *)
Lemma join_missing_file_two_errors :
  let st := run (init ∅) [Join 1 (Some "missing.log"%string); Step 0] in
  length (errors_to "missing.log" (sent st)) = 2 ∧
  length (errors_to "missing.log" (sent st)) ≠ 1.
Proof. split; [reflexivity|]. vm_compute. lia. Qed.

(** C3 (amended): when join is requested for a file that does not exist,
    the snapshot reader emits one error event to the room, and the tail
    worker that the join starts emits a second one when its own [open] fails;
    that worker then terminates and emits nothing more, no line event among
    it. *)
Theorem join_missing_file c filename st :
  filename ≠ ""%string →
  file_at st (os_path_join LOG_DIR filename) = None →
  let err := LogError filename (no_such_file (os_path_join LOG_DIR filename)) in
  let tid := length (threads st) in
  let st1 := on_join c (Some filename) st in
  let st2 := worker_step tid st1 in
  sent st1 = sent st ++ [(ToSid c, Joined filename); (ToRoom filename, err)] ∧
  threads st1 !! tid = Some (Worker filename filename AtOpen 0) ∧
  sent st2 = sent st1 ++ [(ToRoom filename, err)] ∧
  threads st2 !! tid = Some (Worker filename filename AtCleanup 0) ∧
  ∀ k, sent (Nat.iter k (worker_step tid) st2) = sent st2.
Proof.
  intros Hne Hf err tid st1 st2.
  assert (sent st1 = sent st ++ [(ToSid c, Joined filename); (ToRoom filename, err)]
          ∧ threads st1 !! tid = Some (Worker filename filename AtOpen 0)
          ∧ fs st1 = fs st) as (Hs1 & Ht1 & Hfs1).
  { unfold st1. rewrite on_join_eq by done.
    match goal with |- context [replace_worker ?f ?r ?s] =>
      destruct (replace_worker_proj f r s) as (-> & _ & -> & _ & -> & _) end.
    simpl. rewrite snapshot_output_missing by done. split; [done|]. split; [|done].
    by rewrite lookup_app_r, Nat.sub_diag. }
  assert (st2 = set_pc tid (Worker filename filename AtOpen 0) AtCleanup
                  (socketio_emit err filename st1)) as Hst2.
  { unfold st2. rewrite (worker_step_open_missing _ _ _ Ht1); [done|done|].
    unfold file_at in *. simpl. by rewrite Hfs1. }
  assert (threads st2 !! tid = Some (Worker filename filename AtCleanup 0)) as Ht2.
  { rewrite Hst2. by apply (set_pc_thread tid (Worker filename filename AtOpen 0)). }
  repeat split; try done.
  - by rewrite Hst2.
  - intros k. apply worker_finished_silent. eexists. split; [done|]. by left.
Qed.

Lemma join_missing_file_witness :
  sent (worker_step 0 (on_join 1 (Some "missing.log"%string) (init ∅))) =
  [(ToSid 1, Joined "missing.log");
   (ToRoom "missing.log", LogError "missing.log"
      "[Errno 2] No such file or directory: '/var/log/missing.log'");
   (ToRoom "missing.log", LogError "missing.log"
      "[Errno 2] No such file or directory: '/var/log/missing.log'")].
Proof.
  pose proof (join_missing_file 1 "missing.log"%string (init ∅)
                ltac:(done) eq_refl) as H.
  cbv zeta in H. destruct H as (H1 & _ & H2 & _).
  change (length (threads (init ∅))) with 0 in H2.
  rewrite H2, H1. reflexivity.
Defined.

(** ** Paths opened by a join *)

Lemma os_path_join_absolute a b : startswith_sep b = true → os_path_join a b = b.
Proof. intros H. unfold os_path_join. by rewrite H. Qed.

(** C9: [on_join] checks nothing but that the name is not empty: for every
    non-empty name the connection enters the room of that name, the snapshot is
    read from [os.path.join(LOG_DIR, filename)] and a worker is started that
    opens the same path; an absolute name replaces [LOG_DIR], so that for the
    name ["/etc/passwd"] both the snapshot and the worker read a file outside
    [LOG_DIR]. *)
Theorem on_join_unvalidated c filename st :
  filename ≠ ""%string →
  let st' := on_join c (Some filename) st in
  let tid := length (threads st) in
  c ∈ room_members st' filename ∧
  sent st' = sent st ++ (ToSid c, Joined filename) ::
               map (λ ev, (ToRoom filename, ev)) (snapshot_output filename 200 st) ∧
  threads st' !! tid = Some (Worker filename filename AtOpen 0) ∧
  (∀ content, file_at st (os_path_join LOG_DIR filename) = Some content →
     snapshot_output filename 200 st =
       snapshot_events filename (slice_last 200 (file_lines content)) ∧
     threads (worker_step tid st') !! tid =
       Some (Worker filename filename AtLoopTop (length content))) ∧
  (startswith_sep filename = true → os_path_join LOG_DIR filename = filename) ∧
  ∃ name, name ≠ ""%string ∧
    under_log_dir (os_path_join LOG_DIR name) = false ∧
    lines_of name (received 7 (on_join 7 (Some name) passwd_state)) =
      [str "root:x:0:0" ++ [LF]] ∧
    lines_of name (received 7
      (run passwd_state [Join 7 (Some name); Step 0; Step 0;
                         Append name (str "evil:x:0:0" ++ [LF]); Step 0])) =
      [str "root:x:0:0" ++ [LF]; str "evil:x:0:0" ++ [LF]].
Proof.
  intros Hne st' tid. unfold st'. rewrite on_join_eq by done.
  match goal with |- context [replace_worker ?f ?r ?s] =>
    pose proof (replace_worker_proj f r s) as (Hfs & Hm & Hs & _ & Ht & _);
    set (st1 := replace_worker f r s) in * end.
  cbn [fs members sent threads] in Hfs, Hm, Hs, Ht.
  assert (threads st1 !! tid = Some (Worker filename filename AtOpen 0)) as Htid.
  { rewrite Ht. by rewrite lookup_app_r, Nat.sub_diag. }
  split.
  { unfold room_members. rewrite Hm. apply join_room_member. }
  split; [done|]. split; [done|]. split.
  { intros content Hc. split; [by apply snapshot_output_readable|].
    rewrite (worker_step_open tid _ content _ Htid); [|done|].
    - unfold set_pos_pc. simpl. apply list_lookup_insert_eq. by eapply lookup_lt_Some.
    - unfold file_at in *. by rewrite Hfs. }
  split; [apply os_path_join_absolute|].
  exists "/etc/passwd"%string. repeat split; try done.
Qed.

Lemma on_join_unvalidated_witness :
  7 ∈ room_members (on_join 7 (Some "/etc/passwd"%string) passwd_state) "/etc/passwd" ∧
  os_path_join LOG_DIR "/etc/passwd" = "/etc/passwd"%string.
Proof.
  pose proof (on_join_unvalidated 7 "/etc/passwd"%string passwd_state ltac:(done)) as H.
  cbv zeta in H. destruct H as (H1 & _ & _ & _ & H5 & _).
  split; [exact H1|]. apply H5. reflexivity.
Defined.

(** ** Leave *)

Lemma leave_room_proj c room st :
  fs (leave_room c room st) = fs st ∧ heap (leave_room c room st) = heap st ∧
  tail_threads (leave_room c room st) = tail_threads st ∧
  threads (leave_room c room st) = threads st ∧
  sent (leave_room c room st) = sent st ∧ inbox (leave_room c room st) = inbox st ∧
  room_members (leave_room c room st) room =
    filter (λ x, x ≠ c) (room_members st room).
Proof.
  unfold leave_room, room_members. destruct (members st !! room) eqn:E; simpl.
  - by rewrite lookup_insert_eq.
  - by rewrite E.
Qed.

Lemma mark_stop_heap a e st :
  heap st !! a = Some e →
  heap (mark_stop a st) !! a = Some (Entry (e_thread e) true (e_file e)).
Proof.
  intros He. unfold mark_stop. rewrite He. simpl.
  apply list_lookup_insert_eq. by eapply lookup_lt_Some.
Qed.

Lemma on_leave_eq c filename a st :
  filename ≠ ""%string → tail_threads st !! filename = Some a →
  on_leave c (Some filename) st = mark_stop a (leave_room c filename st).
Proof.
  intros Hne Ha. unfold on_leave.
  assert (String.eqb filename "" = false) as -> by by apply String.eqb_neq.
  destruct (leave_room_proj c filename st) as (_ & _ & -> & _). by rewrite Ha.
Qed.

(** C2, as stated, fails: connections 1 and 2 are subscribed to one file,
    connection 1 leaves, a line is appended; connection 2 is still in the room
    but every worker of the room exits and the line never reaches it. *)
Lemma leave_stops_remaining_subscriber :
  let st := run snap_state
    [Join 1 (Some "app.log"%string); Join 2 (Some "app.log"%string); Step 0; Step 1;
     Leave 1 (Some "app.log"%string);
     Append "/var/log/app.log" (str "hello" ++ [LF]);
     Step 0; Step 1; Step 0; Step 1] in
  room_members st "app.log" = [2] ∧
  map w_pc (threads st) = [Exited; Exited] ∧
  lines_of "app.log" (received 2 st) =
    [str "a" ++ [LF]; str "b" ++ [LF]; str "c" ++ [LF]] ∧
  str "hello" ++ [LF] ∉ lines_of "app.log" (received 2 st).
Proof.
  repeat split; try reflexivity. vm_compute.
  intros H. repeat (apply elem_of_cons in H as [H|H]; [discriminate H|]).
  by apply elem_of_nil in H.
Qed.

(** C2 (amended): a leave request removes the connection from the room's
    group and marks the room's current entry stopped, whoever else is still
    subscribed (the code keeps no subscriber count); every worker of the room
    then leaves its loop at its next loop-top check without emitting, so the
    connections that remain receive no further live lines from it. *)
Theorem on_leave_stops_room c filename a e st :
  filename ≠ ""%string →
  tail_threads st !! filename = Some a → heap st !! a = Some e →
  let st' := on_leave c (Some filename) st in
  room_members st' filename = filter (λ x, x ≠ c) (room_members st filename) ∧
  tail_threads st' = tail_threads st ∧
  heap st' !! a = Some (Entry (e_thread e) true (e_file e)) ∧
  must_stop filename st' = true ∧
  ∀ tid w, threads st' !! tid = Some w → w_room w = filename → w_pc w = AtLoopTop →
    threads (worker_step tid st') !! tid =
      Some (Worker (w_file w) filename AtCleanup (w_pos w)) ∧
    sent (worker_step tid st') = sent st' ∧
    inbox (worker_step tid st') = inbox st'.
Proof.
  intros Hne Ha He st'. unfold st'. rewrite (on_leave_eq _ _ a) by done.
  destruct (leave_room_proj c filename st) as (_ & Hh & Ht & _ & _ & _ & Hm).
  destruct (mark_stop_proj a (leave_room c filename st))
    as (_ & Hm' & Ht' & _ & _ & _ & _).
  assert (heap (mark_stop a (leave_room c filename st)) !! a
          = Some (Entry (e_thread e) true (e_file e))) as Hheap
    by (apply mark_stop_heap; by rewrite Hh).
  assert (must_stop filename (mark_stop a (leave_room c filename st)) = true) as Hstop.
  { unfold must_stop. by rewrite Ht', Ht, Ha, Hheap. }
  split; [unfold room_members in *; by rewrite Hm'|].
  split; [by rewrite Ht', Ht|]. split; [done|]. split; [done|].
  intros tid w Hw Hr Hpc.
  rewrite (worker_step_loop_top _ _ _ Hw Hpc), Hr, Hstop.
  split; [|done]. rewrite (set_pc_thread _ _ _ _ Hw). by rewrite Hr.
Qed.

Lemma on_leave_stops_room_witness :
  room_members (on_leave 1 (Some "app.log"%string) two_subscribers) "app.log" = [2] ∧
  must_stop "app.log" (on_leave 1 (Some "app.log"%string) two_subscribers) = true.
Proof.
  pose proof (on_leave_stops_room 1 "app.log"%string 1
                (Entry (Some 1) false "app.log") two_subscribers
                ltac:(done) eq_refl eq_refl) as H.
  cbv zeta in H. destruct H as (H1 & _ & _ & H4 & _).
  split; [rewrite H1; reflexivity | exact H4].
Defined.

(** ** Disconnect *)

Lemma leave_all_rooms_members c room st :
  room_members (leave_all_rooms c st) room =
  filter (λ x, x ≠ c) (room_members st room).
Proof.
  unfold room_members, leave_all_rooms. simpl. rewrite lookup_fmap.
  by destruct (members st !! room).
Qed.

(** C8, as stated, fails: after a join, the disconnect of the connection
    takes it out of the room as a leave request does, but the room's entry
    stays unstopped where the leave request marks it stopped. *)
Lemma disconnect_is_not_leave :
  let st := on_join 1 (Some "app.log"%string) snap_state in
  room_members (step st (Disconnect 1)) "app.log" =
    room_members (on_leave 1 (Some "app.log"%string) st) "app.log" ∧
  must_stop "app.log" (on_leave 1 (Some "app.log"%string) st) = true ∧
  must_stop "app.log" (step st (Disconnect 1)) = false ∧
  step st (Disconnect 1) ≠ on_leave 1 (Some "app.log"%string) st.
Proof.
  split; [reflexivity|]. split; [reflexivity|]. split; [reflexivity|].
  intros H. apply (f_equal (must_stop "app.log")) in H. vm_compute in H. done.
Qed.

(** C8 (amended): when a connection disconnects, the channel removes it
    from the group of every room, as a leave request does for its room, but
    the handler does nothing more: the registry is as before, no entry is
    marked stopped, and a worker that was not to stop before the disconnect
    passes its next loop-top check and goes on reading. *)
Theorem on_disconnect_no_release c tid w st :
  threads st !! tid = Some w → w_pc w = AtLoopTop →
  must_stop (w_room w) st = false →
  let st' := step st (Disconnect c) in
  (∀ room, room_members st' room = filter (λ x, x ≠ c) (room_members st room)) ∧
  (∀ filename, filename ≠ ""%string →
     room_members st' filename =
     room_members (on_leave c (Some filename) st) filename) ∧
  tail_threads st' = tail_threads st ∧
  heap st' = heap st ∧
  must_stop (w_room w) st' = false ∧
  threads (worker_step tid st') !! tid =
    Some (Worker (w_file w) (w_room w) AtRead (w_pos w)).
Proof.
  intros Hw Hpc Hstop st'. unfold st'. cbn [step]. unfold on_disconnect.
  split; [intros room; apply leave_all_rooms_members|].
  split.
  { intros filename Hne. rewrite leave_all_rooms_members.
    destruct (leave_room_proj c filename st) as (_ & _ & _ & _ & _ & _ & Hm).
    unfold on_leave.
    assert (String.eqb filename "" = false) as -> by by apply String.eqb_neq.
    destruct (tail_threads (leave_room c filename st) !! filename) as [a|];
      [|done].
    unfold room_members. destruct (mark_stop_proj a (leave_room c filename st))
      as (_ & -> & _). done. }
  split; [done|]. split; [done|]. split; [done|].
  assert (threads (leave_all_rooms c st) !! tid = Some w) as Hw' by done.
  assert (must_stop (w_room w) (leave_all_rooms c st) = false) as Hstop' by done.
  rewrite (worker_step_loop_top _ _ _ Hw' Hpc), Hstop'. by apply set_pc_thread.
Qed.

Lemma on_disconnect_no_release_witness :
  room_members (step tailing_state (Disconnect 1)) "app.log" = [] ∧
  threads (worker_step 0 (step tailing_state (Disconnect 1))) !! 0 =
    Some (Worker "app.log" "app.log" AtRead 6).
Proof.
  pose proof (on_disconnect_no_release 1 0 (Worker "app.log" "app.log" AtLoopTop 6)
                tailing_state eq_refl eq_refl eq_refl) as H.
  cbv zeta in H. destruct H as (H1 & _ & _ & _ & _ & H6).
  split; [rewrite H1; reflexivity|exact H6].
Defined.

(** ** The [finally] block *)

(** A worker comes to its [finally] block from a failed [open] or from a
    loop-top check that told it to stop. *)
Lemma worker_reaches_cleanup tid w w' st :
  threads st !! tid = Some w → w_pc w ≠ AtCleanup →
  threads (worker_step tid st) !! tid = Some w' → w_pc w' = AtCleanup →
  (w_pc w = AtOpen ∧ file_at st (os_path_join LOG_DIR (w_file w)) = None) ∨
  (w_pc w = AtLoopTop ∧ must_stop (w_room w) st = true).
Proof.
  intros Hw Hpc Hw' Hpc'. assert (tid < length (threads st)) as Hlt
    by by eapply lookup_lt_Some.
  unfold worker_step in Hw'. rewrite Hw in Hw'. simpl in Hw'.
  destruct (w_pc w) eqn:E; try done.
  - destruct (file_at st _) eqn:Hf; [|by left].
    unfold set_pos_pc in Hw'. simpl in Hw'.
    rewrite list_lookup_insert_eq in Hw' by done. by injection Hw' as <-.
  - destruct (must_stop (w_room w) st); [by right|].
    unfold set_pc in Hw'. simpl in Hw'.
    rewrite list_lookup_insert_eq in Hw' by done. by injection Hw' as <-.
  - destruct (readline _) as [[|x line] k].
    + unfold set_pc in Hw'. simpl in Hw'.
      rewrite list_lookup_insert_eq in Hw' by done. by injection Hw' as <-.
    + unfold set_pos_pc in Hw'. simpl in Hw'.
      rewrite list_lookup_insert_eq in Hw' by done. by injection Hw' as <-.
  - rewrite Hw in Hw'. injection Hw' as <-. congruence.
Qed.

(** C10: the [finally] block of a terminating worker removes the entry
    stored for its room whatever that entry is, so also the entry of a newer
    worker that replaced its own; any other worker of the room then finds no
    entry at its next loop-top check and leaves its loop. *)
Theorem cleanup_pops_current_entry tid w st :
  threads st !! tid = Some w → w_pc w = AtCleanup →
  let st' := worker_step tid st in
  tail_threads st' = delete (w_room w) (tail_threads st) ∧
  tail_threads st' !! w_room w = None ∧
  heap st' = heap st ∧
  ∀ tid' w', tid' ≠ tid → threads st !! tid' = Some w' →
    w_room w' = w_room w → w_pc w' = AtLoopTop →
    threads (worker_step tid' st') !! tid' =
      Some (Worker (w_file w') (w_room w') AtCleanup (w_pos w')) ∧
    sent (worker_step tid' st') = sent st'.
Proof.
  intros Hw Hpc st'. unfold st'. rewrite (worker_step_cleanup _ _ _ Hw Hpc).
  split; [done|]. split; [apply lookup_delete_eq|]. split; [done|].
  intros tid' w' Hne Hw' Hr Hpc'.
  match goal with |- context [worker_step tid' ?s] => set (st1 := s) end.
  assert (threads st1 !! tid' = Some w') as Hw1.
  { unfold st1. rewrite set_pc_other by done. done. }
  assert (must_stop (w_room w') st1 = true) as Hstop.
  { unfold must_stop, st1. simpl. by rewrite Hr, lookup_delete_eq. }
  rewrite (worker_step_loop_top _ _ _ Hw1 Hpc'), Hstop.
  split; [by apply set_pc_thread|done].
Qed.

Lemma cleanup_pops_current_entry_witness :
  tail_threads replaced_state !! "app.log"%string = Some 1 ∧
  heap replaced_state !! 1 = Some (Entry (Some 1) false "app.log") ∧
  tail_threads (worker_step 0 replaced_state) !! "app.log"%string = None ∧
  threads (worker_step 1 (worker_step 0 replaced_state)) !! 1 =
    Some (Worker "app.log" "app.log" AtCleanup 6).
Proof.
  pose proof (cleanup_pops_current_entry 0 (Worker "app.log" "app.log" AtCleanup 6)
                replaced_state eq_refl eq_refl) as H.
  cbv zeta in H. destruct H as (_ & H2 & _ & H4).
  split; [reflexivity|]. split; [reflexivity|]. split; [exact H2|].
  apply (H4 1 (Worker "app.log" "app.log" AtLoopTop 6)); [lia|reflexivity..].
Defined.

(** ** Two joins of one room *)

(** After a join the room's entry is a fresh, unstopped one... *)
Lemma on_join_unstops_room c filename st :
  filename ≠ ""%string → must_stop filename (on_join c (Some filename) st) = false.
Proof.
  intros Hne. rewrite on_join_eq by done.
  match goal with |- context [replace_worker ?f ?r ?s] =>
    destruct (replace_worker_proj f r s) as (_ & _ & _ & _ & _ & Ht & Hh) end.
  unfold must_stop. by rewrite Ht, lookup_insert_eq, Hh.
Qed.

(** ... so a worker that tailed the room before the join is not stopped by
    it: its flag was set on the dict that the join then took out of
    [tail_threads]. *)
Lemma on_join_keeps_old_worker c filename tid w st :
  filename ≠ ""%string →
  threads st !! tid = Some w → w_room w = filename → w_pc w = AtLoopTop →
  threads (worker_step tid (on_join c (Some filename) st)) !! tid =
    Some (Worker (w_file w) (w_room w) AtRead (w_pos w)).
Proof.
  intros Hne Hw Hr Hpc.
  pose proof (on_join_unstops_room c filename st Hne) as Hstop.
  assert (threads (on_join c (Some filename) st) !! tid = Some w) as Hw'.
  { rewrite on_join_eq by done.
    match goal with |- context [replace_worker ?f ?r ?s] =>
      destruct (replace_worker_proj f r s) as (_ & _ & _ & _ & -> & _) end.
    simpl. rewrite lookup_app_l; [done|]. by eapply lookup_lt_Some. }
  rewrite (worker_step_loop_top _ _ _ Hw' Hpc), Hr, Hstop.
  rewrite (set_pc_thread _ _ _ _ Hw'). by rewrite Hr.
Qed.

(** C1: connection 1 joins ["app.log"] twice; both workers pass their stop
    checks, since each finds the second join's unstopped entry under the room,
    and the line appended afterwards is emitted once by each of them. *)
Theorem join_twice_two_workers_emit :
  let st := run snap_state
    [Join 1 (Some "app.log"%string); Join 1 (Some "app.log"%string);
     Step 0; Step 1; Step 0; Step 1;
     Append "/var/log/app.log" (str "hello" ++ [LF]);
     Step 0; Step 1; Step 0; Step 1] in
  heap st = [Entry (Some 0) true "app.log"; Entry (Some 1) false "app.log"] ∧
  tail_threads st !! "app.log"%string = Some 1 ∧
  map w_pc (threads st) = [AtRead; AtRead] ∧
  drop 6 (lines_to "app.log" (sent st)) = [str "hello" ++ [LF]; str "hello" ++ [LF]] ∧
  drop 6 (lines_of "app.log" (received 1 st)) =
    [str "hello" ++ [LF]; str "hello" ++ [LF]].
Proof. repeat split; reflexivity. Qed.

(** ** Tailing: what one worker emits while the file grows *)

Lemma readline_no_CR (s : text) :
  CR ∉ s →
  (readline s).1 = take (readline s).2 s ∧
  (readline s).2 ≤ length s ∧
  (s ≠ [] → (readline s).1 ≠ []) ∧
  (∀ i, (readline s).1 !! i = Some LF → S i = length (readline s).1).
Proof.
  induction s as [|c s IH]; intros Hcr; simpl.
  - repeat split; try done; try lia.
  - destruct (Ascii.eqb c LF) eqn:E; simpl.
    + apply Ascii.eqb_eq in E as ->. repeat split; try done; [lia|].
      intros [|i]; simpl; [done|]. by rewrite lookup_nil.
    + destruct (Ascii.eqb c CR) eqn:E2.
      { apply Ascii.eqb_eq in E2 as ->. exfalso. apply Hcr. by left. }
      destruct IH as (IH1 & IH2 & IH3 & IH4).
      { intros H. apply Hcr. by right. }
      destruct (readline s) as [l k]; simpl in *.
      repeat split; try done; [by rewrite IH1 at 1|lia|].
      intros [|i]; simpl.
      * intros [= ->]. by rewrite Ascii.eqb_refl in E.
      * intros H. by rewrite (IH4 i H).
Qed.

Lemma tail_inv_step tid w st0 st a :
  tail_inv tid w st0 st →
  is_tail_action tid (os_path_join LOG_DIR (w_file w)) a →
  tail_inv tid w st0 (step st a).
Proof.
  intros (w' & content' & chunks & Hw & Hpc & Hf & Hr & Hc & Hcr & Hp1 & Hp2
          & Hs & Hcat & Hch) Ha.
  assert (tid < length (threads st)) as Hlt by by eapply lookup_lt_Some.
  destruct a as [| | |t|p b]; try done; simpl in Ha.
  - (* a step of the worker *)
    subst t. simpl. unfold worker_step. rewrite Hw. simpl.
    destruct (w_pc w') eqn:E; try done.
    + exists (Worker (w_file w') (w_room w')
                (if must_stop (w_room w') st then AtCleanup else AtRead) (w_pos w')),
             content', chunks.
      destruct (must_stop (w_room w') st); unfold set_pc; simpl;
        rewrite list_lookup_insert_eq by done; repeat split; done.
    + rewrite Hf, Hc. simpl.
      destruct (readline_no_CR (drop (w_pos w') content')) as (R1 & R2 & R3 & R4).
      { intros H. apply Hcr. by apply (subseteq_drop (w_pos w') content'). }
      destruct (readline (drop (w_pos w') content')) as [[|x line] k] eqn:ER;
        simpl in *.
      * exists (Worker (w_file w') (w_room w') AtLoopTop (w_pos w')), content', chunks.
        unfold set_pc; simpl. rewrite list_lookup_insert_eq by done.
        repeat split; done.
      * rewrite length_drop in R2.
        exists (Worker (w_file w') (w_room w') AtLoopTop (w_pos w' + k)), content',
               (chunks ++ [x :: line]).
        unfold set_pos_pc; simpl. rewrite list_lookup_insert_eq by done.
        repeat split; try done; try lia.
        -- rewrite Hs, Hr. unfold tail_events. rewrite map_app, <- app_assoc.
           simpl. by rewrite <- Hf.
        -- rewrite concat_app, Hcat. simpl. rewrite app_nil_r, R1.
           replace (w_pos w' + k - w_pos w) with ((w_pos w' - w_pos w) + k) by lia.
           rewrite <- take_take_drop, drop_drop.
           by replace (w_pos w + (w_pos w' - w_pos w)) with (w_pos w') by lia.
        -- apply Forall_app. split; [done|]. apply Forall_singleton.
           split; [done|]. apply R4.
    + exists (Worker (w_file w') (w_room w') Exited (w_pos w')), content', chunks.
      unfold set_pc; simpl. rewrite list_lookup_insert_eq by done.
      repeat split; done.
    + exists w', content', chunks. rewrite E. repeat split; try done; congruence.
  - (* an append to the file *)
    destruct Ha as [-> Hb]. simpl. unfold append_file.
    rewrite Hc. simpl.
    exists w', (content' ++ b), chunks. repeat split; try done.
    + unfold file_at. simpl. by rewrite lookup_insert_eq.
    + intros [?|?]%elem_of_app; done.
    + rewrite length_app. lia.
    + rewrite Hcat, drop_app_le by lia.
      rewrite take_app_le; [done|]. rewrite length_drop. lia.
Qed.

Lemma tail_inv_run tid w st0 l : ∀ st,
  tail_inv tid w st0 st →
  Forall (is_tail_action tid (os_path_join LOG_DIR (w_file w))) l →
  tail_inv tid w st0 (run st l).
Proof.
  induction l as [|a l IH]; intros st Hinv Hl; [done|].
  apply Forall_cons in Hl as [Ha Hl]. simpl. apply IH; [|done].
  by apply tail_inv_step.
Qed.

Lemma worker_step_fs tid st : fs (worker_step tid st) = fs st.
Proof.
  unfold worker_step. destruct (threads st !! tid) as [w|]; [|done]. simpl.
  destruct (w_pc w); try done.
  - by destruct (file_at st _).
  - by destruct (must_stop _ _).
  - by destruct (readline _) as [[|x line] k].
Qed.

Lemma tail_run_file tid path l : ∀ st content,
  file_at st path = Some content →
  Forall (is_tail_action tid path) l →
  file_at (run st l) path = Some (content ++ appended path l).
Proof.
  induction l as [|a l IH]; intros st content Hc Hl; simpl.
  - by rewrite app_nil_r.
  - apply Forall_cons in Hl as [Ha Hl]. destruct a as [| | |t|p b]; try done.
    + rewrite (IH _ content); [done| |done].
      unfold file_at in *. simpl. by rewrite worker_step_fs.
    + destruct Ha as [-> _]. unfold appended. simpl. rewrite String.eqb_refl.
      simpl. rewrite (IH _ (content ++ b)); [by rewrite <- app_assoc| |done].
      unfold append_file, file_at in *. simpl. by rewrite lookup_insert_eq, Hc.
Qed.

(** A worker at its [readline] with unread bytes before it emits at once. *)
Lemma tail_read_progress tid w content st :
  threads st !! tid = Some w → w_pc w = AtRead →
  file_at st (os_path_join LOG_DIR (w_file w)) = Some content →
  w_pos w < length content →
  ∃ line k, readline (drop (w_pos w) content) = (line, k) ∧ line ≠ [] ∧ 0 < k ∧
    sent (worker_step tid st) =
      sent st ++ [(ToRoom (w_room w), LogLine (w_file w) line)] ∧
    threads (worker_step tid st) !! tid =
      Some (Worker (w_file w) (w_room w) AtLoopTop (w_pos w + k)).
Proof.
  intros Hw Hpc Hc Hpos. unfold worker_step. rewrite Hw. simpl. rewrite Hpc, Hc.
  simpl. destruct (drop (w_pos w) content) as [|c s] eqn:E.
  { apply (f_equal length) in E. rewrite length_drop in E. simpl in E. lia. }
  assert (∃ x line k, readline (c :: s) = (x :: line, S k)) as (x & line & k & ->).
  { simpl. destruct (Ascii.eqb c LF); [by eexists _, _, _|].
    destruct (Ascii.eqb c CR).
    - destruct s as [|c' s]; [by eexists _, _, _|].
      destruct (Ascii.eqb c' LF); by eexists _, _, _.
    - destruct (readline s). by eexists _, _, _. }
  exists (x :: line), (S k). repeat split; try done; [lia|].
  unfold set_pos_pc. simpl. apply list_lookup_insert_eq. by eapply lookup_lt_Some.
Qed.

(** * Further properties of the tail engine *)

(** ** What one action changes *)

Lemma worker_step_shape tid st :
  worker_step tid st = st ∨
  ∃ w p pos st1,
    threads st !! tid = Some w ∧
    worker_step tid st = set_pos_pc tid w pos p st1 ∧
    fs st1 = fs st ∧ members st1 = members st ∧ heap st1 = heap st ∧
    threads st1 = threads st ∧
    (tail_threads st1 = tail_threads st ∨
     tail_threads st1 = delete (w_room w) (tail_threads st)).
Proof.
  unfold worker_step. destruct (threads st !! tid) as [w|] eqn:Hw; [|by left].
  simpl. destruct (w_pc w).
  - destruct (file_at st _); right.
    + exists w, AtLoopTop, (length t), st. repeat split; auto.
    + eexists w, AtCleanup, (w_pos w), _. split; [done|]. split; [done|].
      repeat split; auto.
  - right. exists w, (if must_stop (w_room w) st then AtCleanup else AtRead),
             (w_pos w), st.
    split; [done|]. split; [by destruct (must_stop _ _)|]. repeat split; auto.
  - right. destruct (readline _) as [[|x line] k].
    + exists w, AtLoopTop, (w_pos w), st. repeat split; auto.
    + eexists w, AtLoopTop, (w_pos w + k), _. split; [done|]. split; [done|].
      repeat split; auto.
  - right. eexists w, Exited, (w_pos w), _. split; [done|]. split; [done|].
    repeat split; auto.
  - by left.
Qed.

Lemma worker_step_proj tid st :
  fs (worker_step tid st) = fs st ∧ members (worker_step tid st) = members st ∧
  heap (worker_step tid st) = heap st ∧
  length (threads (worker_step tid st)) = length (threads st) ∧
  (∀ room a, tail_threads (worker_step tid st) !! room = Some a →
     tail_threads st !! room = Some a).
Proof.
  destruct (worker_step_shape tid st)
    as [->|(w & p & pos & st1 & Hw & -> & Hfs & Hm & Hh & Ht & Htt)]; [done|].
  unfold set_pos_pc. simpl. rewrite length_insert, Ht.
  repeat split; try done.
  intros room a. destruct Htt as [->| ->]; [done|].
  intros H. apply lookup_delete_Some in H. by destruct H.
Qed.

(** A step keeps every thread, with its file and its room. *)
Lemma worker_step_thread tid tid' w st :
  threads st !! tid' = Some w →
  ∃ w', threads (worker_step tid st) !! tid' = Some w' ∧
        w_file w' = w_file w ∧ w_room w' = w_room w ∧
        (w_pc w = Exited → w' = w).
Proof.
  intros Hw'.
  destruct (decide (tid = tid')) as [->|Hne].
  - destruct (w_pc w) eqn:Hpc.
    5:{ rewrite (worker_step_exited _ _ _ Hw' Hpc). by exists w. }
    all: destruct (worker_step_shape tid' st)
      as [->|(w0 & p & pos & st1 & Hw & -> & _ & _ & _ & Ht & _)];
      [by exists w|].
    all: rewrite Hw' in Hw; injection Hw as <-.
    all: eexists; split;
      [unfold set_pos_pc; simpl; rewrite Ht; apply list_lookup_insert_eq;
       by eapply lookup_lt_Some|done].
  - destruct (worker_step_shape tid st)
      as [->|(w0 & p & pos & st1 & Hw & -> & _ & _ & _ & Ht & _)];
      [by exists w|].
    exists w. unfold set_pos_pc. simpl. rewrite Ht.
    by rewrite list_lookup_insert_ne.
Qed.

Lemma on_join_cases c file st :
  on_join c file st = st ∨
  ∃ filename, file = Some filename ∧ filename ≠ ""%string.
Proof.
  destruct file as [filename|]; [|by left]. simpl.
  destruct (String.eqb filename "") eqn:E; [by left|].
  right. exists filename. split; [done|]. by apply String.eqb_neq.
Qed.

Lemma on_leave_cases c file st :
  on_leave c file st = st ∨
  ∃ filename, file = Some filename ∧ filename ≠ ""%string ∧
    (on_leave c file st = leave_room c filename st ∨
     ∃ a, on_leave c file st = mark_stop a (leave_room c filename st)).
Proof.
  destruct file as [filename|]; [|by left]. simpl.
  destruct (String.eqb filename "") eqn:E; [by left|].
  right. exists filename. split; [done|]. split; [by apply String.eqb_neq|].
  destruct (tail_threads _ !! filename) as [a|]; [right; by exists a|by left].
Qed.

Lemma mark_stop_lookup a b e st :
  heap st !! b = Some e →
  ∃ e', heap (mark_stop a st) !! b = Some e' ∧
        e_file e' = e_file e ∧ e_thread e' = e_thread e.
Proof.
  intros Hb. unfold mark_stop. destruct (heap st !! a) as [ea|] eqn:Ha; [|by exists e].
  simpl. destruct (decide (a = b)) as [->|Hne].
  - rewrite Hb in Ha. injection Ha as <-.
    exists (Entry (e_thread e) true (e_file e)). split; [|done].
    apply list_lookup_insert_eq. by eapply lookup_lt_Some.
  - exists e. by rewrite list_lookup_insert_ne.
Qed.

Lemma registry_ok_mark_stop a st : registry_ok st → registry_ok (mark_stop a st).
Proof.
  intros Hok room b Hb.
  destruct (mark_stop_proj a st) as (_ & _ & Ht & Hth & _ & _ & _).
  rewrite Ht in Hb.
  destruct (Hok room b Hb) as (e & tid & w & He & Hf & Hthr & Hw & Hr & Hfw).
  destruct (mark_stop_lookup a b e st He) as (e' & He' & Hf' & Ht').
  exists e', tid, w. rewrite Hth. repeat split; try done; congruence.
Qed.

Lemma registry_ok_step st a : registry_ok st → registry_ok (step st a).
Proof.
  intros Hok. destruct a as [c file|c file|c|tid|p b]; simpl; try done.
  - (* join *)
    destruct (on_join_cases c file st) as [->|(filename & -> & Hne)]; [done|].
    rewrite on_join_eq by done.
    match goal with |- registry_ok (replace_worker ?f ?r ?s) => set (st0 := s) end.
    assert (registry_ok st0) as Hok0 by done.
    clearbody st0. clear Hok st. unfold replace_worker.
    set (st1 := match tail_threads st0 !! filename with
                | Some a => mark_stop a st0 | None => st0 end).
    assert (registry_ok st1) as Hok1.
    { unfold st1. destruct (tail_threads st0 !! filename);
        [by apply registry_ok_mark_stop|done]. }
    clearbody st1. intros room a. simpl.
    destruct (decide (filename = room)) as [->|Hr].
    + rewrite lookup_insert_eq. intros [= <-].
      exists (Entry (Some (length (threads st1))) false room),
             (length (threads st1)), (Worker room room AtOpen 0).
      repeat split; try done.
      * apply list_lookup_insert_eq. rewrite length_app. simpl. lia.
      * by rewrite lookup_app_r, Nat.sub_diag.
    + rewrite lookup_insert_ne by done. intros Ha.
      destruct (Hok1 room a Ha) as (e & tid & w & He & Hf & Hthr & Hw & Hrw & Hfw).
      exists e, tid, w. repeat split; try done.
      * rewrite list_lookup_insert_ne
          by (apply lookup_lt_Some in He; lia).
        by apply lookup_app_l_Some.
      * by apply lookup_app_l_Some.
  - (* leave *)
    destruct (on_leave_cases c file st)
      as [->|(filename & -> & Hne & [->|[a ->]])]; [done| |].
    + unfold leave_room. by destruct (members st !! filename).
    + apply registry_ok_mark_stop. unfold leave_room.
      by destruct (members st !! filename).
  - (* a worker step *)
    destruct (worker_step_proj tid st) as (_ & _ & Hh & _ & Htt).
    intros room a Ha. apply Htt in Ha.
    destruct (Hok room a Ha) as (e & t & w & He & Hf & Hthr & Hw & Hrw & Hfw).
    destruct (worker_step_thread tid t w st Hw) as (w' & Hw' & Hf' & Hr' & _).
    exists e, t, w'. rewrite Hh. repeat split; try done; congruence.
Qed.

(** X1: in every state that a run reaches from an initial state, each
    room of [tail_threads] holds a dict of the heap whose ["file"] is the room
    and whose ["thread"] is a started thread that tails that file for that
    room; the lookup in a worker's stop check never finds a dangling entry. *)
Theorem run_registry_ok files l : registry_ok (run (init files) l).
Proof.
  assert (∀ st, registry_ok st → registry_ok (run st l)) as H.
  { induction l as [|a l IH]; intros st Hok; [done|].
    simpl. apply IH. by apply registry_ok_step. }
  apply H. intros room a Ha. simpl in Ha. by rewrite lookup_empty in Ha.
Qed.

(** ** Groups and threads along a run *)

Lemma on_join_members c filename st :
  filename ≠ ""%string →
  members (on_join c (Some filename) st) = members (join_room c filename st) ∧
  threads (on_join c (Some filename) st) =
    threads st ++ [Worker filename filename AtOpen 0].
Proof.
  intros Hne. rewrite on_join_eq by done.
  match goal with |- context [replace_worker ?f ?r ?s] =>
    destruct (replace_worker_proj f r s) as (_ & -> & _ & _ & -> & _) end.
  done.
Qed.

Lemma join_room_other c room room' st :
  room ≠ room' → room_members (join_room c room st) room' = room_members st room'.
Proof.
  intros Hne. unfold join_room. case_bool_decide; [done|].
  unfold room_members, set_members. simpl. by rewrite lookup_insert_ne.
Qed.

Lemma leave_room_other c room room' st :
  room ≠ room' → room_members (leave_room c room st) room' = room_members st room'.
Proof.
  intros Hne. unfold leave_room. destruct (members st !! room); [|done].
  unfold room_members, set_members. simpl. by rewrite lookup_insert_ne.
Qed.

Lemma step_groups_NoDup st a :
  (∀ room, NoDup (room_members st room)) →
  ∀ room, NoDup (room_members (step st a) room).
Proof.
  intros Hnd room. destruct a as [c file|c file|c|tid|p b]; simpl;
    [| |unfold on_disconnect; rewrite leave_all_rooms_members;
        apply NoDup_filter, Hnd| |apply Hnd].
  - destruct (on_join_cases c file st) as [->|(filename & -> & Hne)]; [done|].
    unfold room_members. rewrite (proj1 (on_join_members c filename st Hne)).
    fold (room_members (join_room c filename st) room).
    destruct (decide (filename = room)) as [->|Hr].
    + by apply join_room_NoDup.
    + by rewrite join_room_other.
  - assert (∀ filename, NoDup (room_members (leave_room c filename st) room)) as Hl.
    { intros filename. destruct (decide (filename = room)) as [<-|Hr].
      - destruct (leave_room_proj c filename st) as (_ & _ & _ & _ & _ & _ & ->).
        by apply NoDup_filter.
      - by rewrite leave_room_other. }
    destruct (on_leave_cases c file st)
      as [->|(filename & -> & Hne & [->|[a ->]])]; [done|apply Hl|].
    unfold room_members.
    destruct (mark_stop_proj a (leave_room c filename st)) as (_ & -> & _).
    apply Hl.
  - unfold room_members.
    destruct (worker_step_proj tid st) as (_ & -> & _). apply Hnd.
Qed.

(** X2: along every run from an initial state each room's group holds a
    connection at most once, however often the connection joins the room. *)
Theorem run_groups_NoDup files l room :
  NoDup (room_members (run (init files) l) room).
Proof.
  assert (∀ st, (∀ r, NoDup (room_members st r)) →
                ∀ r, NoDup (room_members (run st l) r)) as H.
  { induction l as [|a l IH]; intros st Hnd; [done|].
    simpl. apply IH. by apply step_groups_NoDup. }
  apply H. intros r. unfold room_members. simpl. rewrite lookup_empty.
  apply NoDup_nil_2.
Qed.

Lemma step_threads st a :
  length (threads (step st a)) =
    length (threads st) + (if starts_worker a then 1 else 0) ∧
  ∀ tid w, threads st !! tid = Some w →
    ∃ w', threads (step st a) !! tid = Some w' ∧
          w_file w' = w_file w ∧ w_room w' = w_room w ∧
          (w_pc w = Exited → w' = w).
Proof.
  destruct a as [c file|c file|c|tid|p b]; cbn [step starts_worker].
  - destruct file as [filename|]; [|split; [simpl; lia|by eauto]].
    destruct (decide (filename = ""%string)) as [->|Hne];
      [split; [simpl; lia|by eauto]|].
    assert (String.eqb filename "" = false) as -> by by apply String.eqb_neq.
    rewrite (proj2 (on_join_members c filename st Hne)), length_app.
    split; [done|].
    intros tid w Hw. exists w. split; [by apply lookup_app_l_Some|done].
  - assert (threads (on_leave c file st) = threads st) as ->.
    { destruct (on_leave_cases c file st)
        as [->|(filename & -> & Hne & [->|[a ->]])]; [done| |].
      - by destruct (leave_room_proj c filename st) as (_ & _ & _ & -> & _).
      - destruct (mark_stop_proj a (leave_room c filename st))
          as (_ & _ & _ & -> & _).
        by destruct (leave_room_proj c filename st) as (_ & _ & _ & -> & _). }
    split; [lia|by eauto].
  - split; [unfold on_disconnect; simpl; lia|by eauto].
  - destruct (worker_step_proj tid st) as (_ & _ & _ & -> & _).
    split; [lia|]. intros tid' w Hw. by apply worker_step_thread.
  - split; [simpl; lia|by eauto].
Qed.

(** X3: the number of started workers grows by one with every join that
    names a file, whether or not the room already has a worker, and nothing
    ever takes a worker away: each keeps its file and its room for the rest of
    the run, and one that has exited stays exited. *)
Theorem run_threads_accumulate l : ∀ st,
  length (threads (run st l)) = length (threads st) + length (filter starts_worker l) ∧
  ∀ tid w, threads st !! tid = Some w →
    ∃ w', threads (run st l) !! tid = Some w' ∧
          w_file w' = w_file w ∧ w_room w' = w_room w ∧
          (w_pc w = Exited → w' = w).
Proof.
  induction l as [|a l IH]; intros st; simpl.
  - split; [lia|by eauto].
  - destruct (step_threads st a) as [Hlen Hkeep].
    destruct (IH (step st a)) as [IHlen IHkeep].
    split.
    + rewrite IHlen, Hlen, filter_cons.
      destruct (starts_worker a); simpl; lia.
    + intros tid w Hw.
      destruct (Hkeep tid w Hw) as (w1 & Hw1 & Hf1 & Hr1 & He1).
      destruct (IHkeep tid w1 Hw1) as (w2 & Hw2 & Hf2 & Hr2 & He2).
      exists w2. repeat split; try congruence.
      intros Hex. rewrite <- (He1 Hex). apply He2. by rewrite (He1 Hex).
Qed.

(** ** Complete lines: the tail and the snapshot agree *)

Lemma readline_line (l rest : text) :
  LF ∉ l → CR ∉ l → readline (l ++ LF :: rest) = (l ++ [LF], S (length l)).
Proof.
  induction l as [|c l IH]; intros Hlf Hcr; simpl; [done|].
  assert (Ascii.eqb c LF = false) as ->.
  { apply Ascii.eqb_neq. intros ->. apply Hlf. by left. }
  assert (Ascii.eqb c CR = false) as ->.
  { apply Ascii.eqb_neq. intros ->. apply Hcr. by left. }
  rewrite IH; [done| |]; intros H; [apply Hlf|apply Hcr]; by right.
Qed.

Lemma worker_step_read tid w content x line k st :
  threads st !! tid = Some w → w_pc w = AtRead →
  file_at st (os_path_join LOG_DIR (w_file w)) = Some content →
  readline (drop (w_pos w) content) = (x :: line, k) →
  worker_step tid st =
  set_pos_pc tid w (w_pos w + k) AtLoopTop
    (socketio_emit (LogLine (w_file w) (x :: line)) (w_room w) st).
Proof.
  intros Hw Hpc Hc Hr. unfold worker_step. rewrite Hw. simpl.
  rewrite Hpc, Hc. simpl. by rewrite Hr.
Qed.

Lemma tail_lines_run tid content ls : ∀ w st,
  threads st !! tid = Some w → w_pc w = AtLoopTop →
  must_stop (w_room w) st = false →
  file_at st (os_path_join LOG_DIR (w_file w)) = Some content →
  drop (w_pos w) content = join_lines ls → w_pos w ≤ length content →
  Forall (λ l, (LF ∉ l) ∧ (CR ∉ l)) ls →
  sent (run st (replicate (2 * length ls) (Step tid))) =
    sent st ++ tail_events w (map (λ l, l ++ [LF]) ls) ∧
  threads (run st (replicate (2 * length ls) (Step tid))) !! tid =
    Some (Worker (w_file w) (w_room w) AtLoopTop (length content)).
Proof.
  induction ls as [|l ls IH]; intros w st Hw Hpc Hstop Hc Hd Hpos Hls.
  - simpl. unfold tail_events. simpl. rewrite app_nil_r. split; [done|].
    apply (f_equal length) in Hd. rewrite length_drop in Hd. simpl in Hd.
    rewrite Hw. f_equal. destruct w; simpl in *. f_equal; [done|lia].
  - apply Forall_cons in Hls as [[Hlf Hcr] Hls].
    replace (2 * length (l :: ls)) with (S (S (2 * length ls))) by (simpl; lia).
    cbn [replicate run foldl step].
    (* the stop check *)
    rewrite (worker_step_loop_top _ _ _ Hw Hpc), Hstop.
    pose proof (set_pc_thread tid w AtRead st Hw) as Hw1.
    set (st1 := set_pc tid w AtRead st) in *.
    set (w1 := Worker (w_file w) (w_room w) AtRead (w_pos w)) in *.
    (* the read *)
    unfold join_lines in Hd. simpl in Hd. rewrite <- app_assoc in Hd. simpl in Hd.
    fold (join_lines ls) in Hd.
    assert (readline (drop (w_pos w1) content)
            = (l ++ [LF], S (length l))) as Hr.
    { simpl. rewrite Hd. by apply readline_line. }
    destruct (l ++ [LF]) as [|x line] eqn:El; [by destruct l|].
    rewrite (worker_step_read tid w1 content x line (S (length l)) st1 Hw1 eq_refl Hc Hr).
    set (st2 := set_pos_pc _ _ _ _ _).
    set (w2 := Worker (w_file w) (w_room w) AtLoopTop (w_pos w + S (length l))).
    assert (length (l ++ LF :: join_lines ls) = length content - w_pos w) as Hlen
      by (rewrite <- Hd, length_drop; done).
    rewrite length_app in Hlen. simpl in Hlen.
    destruct (IH w2 st2) as [IHs IHt]; try done.
    + unfold st2, set_pos_pc. simpl. apply list_lookup_insert_eq.
      rewrite length_insert. by eapply lookup_lt_Some.
    + simpl. rewrite <- (drop_drop content (S (length l)) (w_pos w)), Hd.
      replace (S (length l)) with (length (l ++ [LF]))
        by (rewrite length_app; simpl; lia).
      rewrite (app_assoc l [LF] (join_lines ls)) || idtac.
      change (l ++ LF :: join_lines ls) with (l ++ [LF] ++ join_lines ls).
      rewrite app_assoc. by rewrite drop_app_length.
    + simpl. lia.
    + unfold run in *. split; [|exact IHt]. rewrite IHs.
      unfold st2, tail_events. simpl.
      rewrite <- app_assoc. by rewrite El.
Qed.

(** X4: when the bytes that lie after a tailing worker's cursor are
    complete lines, each ended by ["\n"] and without ["\r"], and nothing tells
    the worker to stop, then two steps per line (a stop check and a read) emit
    exactly these lines to the room, one event each, in order, and leave the
    cursor at the end of the file. *)
Theorem tail_emits_complete_lines tid w content ls st :
  threads st !! tid = Some w → w_pc w = AtLoopTop →
  must_stop (w_room w) st = false →
  file_at st (os_path_join LOG_DIR (w_file w)) = Some content →
  drop (w_pos w) content = join_lines ls → w_pos w ≤ length content →
  Forall (λ l, (LF ∉ l) ∧ (CR ∉ l)) ls →
  let st' := run st (replicate (2 * length ls) (Step tid)) in
  sent st' = sent st ++ map (λ l, (ToRoom (w_room w), LogLine (w_file w) (l ++ [LF]))) ls ∧
  threads st' !! tid = Some (Worker (w_file w) (w_room w) AtLoopTop (length content)).
Proof.
  intros Hw Hpc Hstop Hc Hd Hpos Hls st'.
  destruct (tail_lines_run tid content ls w st) as [Hs Ht]; try done.
  split; [|done]. unfold st'. rewrite Hs. unfold tail_events.
  by rewrite map_map.
Qed.

Lemma tail_emits_complete_lines_witness :
  sent (run two_appended_state (replicate 4 (Step 0))) =
    sent two_appended_state ++
    [(ToRoom "app.log", LogLine "app.log" (str "ab" ++ [LF]));
     (ToRoom "app.log", LogLine "app.log" (str "cd" ++ [LF]))].
Proof.
  pose proof (tail_emits_complete_lines 0 (Worker "app.log" "app.log" AtLoopTop 0)
                (join_lines [str "ab"; str "cd"]) [str "ab"; str "cd"]
                two_appended_state eq_refl eq_refl eq_refl eq_refl eq_refl) as H.
  cbv zeta in H. apply H.
  - simpl. lia.
  - repeat constructor; apply (bool_decide_unpack _); vm_compute; exact I.
Defined.

(** ** The snapshot of a file written line by line *)

Lemma translate_from_no_CR s : CR ∉ s → translate_from false s = s.
Proof.
  induction s as [|c s IH]; intros Hcr; simpl; [done|].
  assert (Ascii.eqb c CR = false) as ->.
  { apply Ascii.eqb_neq. intros ->. apply Hcr. by left. }
  rewrite IH; [done|]. intros H. apply Hcr. by right.
Qed.

Lemma break_free_no_CR l : break_free l → CR ∉ l.
Proof.
  intros Hl Hin. unfold break_free in Hl. rewrite Forall_forall in Hl.
  by specialize (Hl CR Hin).
Qed.

Lemma join_lines_no_CR ls : Forall break_free ls → CR ∉ join_lines ls.
Proof.
  induction 1 as [|l ls Hl Hls IH]; unfold join_lines; simpl.
  - by intros ?%elem_of_nil.
  - rewrite <- app_assoc.
    intros [H|[H|H]%elem_of_cons]%elem_of_app; [|done|by apply IH].
    by apply (break_free_no_CR l).
Qed.

Lemma splitlines_from_line l rest :
  break_free l →
  splitlines_from false (l ++ LF :: rest) = l :: splitlines_from false rest.
Proof.
  induction 1 as [|c l Hc Hl IH]; simpl; [done|].
  assert (Ascii.eqb c LF = false) as E.
  { apply Ascii.eqb_neq. intros ->. done. }
  by rewrite Hc, IH.
Qed.

(** [splitlines] undoes the writing of lines. *)
Lemma splitlines_join_lines ls :
  Forall break_free ls → splitlines (join_lines ls) = ls.
Proof.
  unfold splitlines, join_lines.
  induction 1 as [|l ls Hl Hls IH]; simpl; [done|].
  rewrite <- app_assoc. simpl. by rewrite splitlines_from_line, IH.
Qed.

Lemma file_lines_join_lines ls : Forall break_free ls → file_lines (join_lines ls) = ls.
Proof.
  intros Hls. unfold file_lines, translate_newlines.
  rewrite translate_from_no_CR by by apply join_lines_no_CR.
  by apply splitlines_join_lines.
Qed.

(** X5: for a file that consists of lines of ASCII text without line
    break characters, each ended by ["\n"], and for [n > 0],
    [send_last_lines] emits to the room exactly the last [n] of these lines
    (all of them when there are at most [n]), each with its ["\n"], in
    order. *)
Theorem send_last_lines_of_lines filename room n ls st :
  (0 < n)%Z → Forall ascii_text ls → Forall break_free ls →
  file_at st (os_path_join LOG_DIR filename) = Some (join_lines ls) →
  sent (send_last_lines filename room n st) =
    sent st ++ map (λ l, (ToRoom room, LogLine filename (l ++ [LF])))
                 (drop (length ls - Z.to_nat n) ls).
Proof.
  intros Hn _ Hls Hf.
  rewrite (send_last_lines_readable _ _ _ _ _ Hn Hf). simpl.
  rewrite file_lines_join_lines by done. unfold snapshot_events, slice_last.
  assert ((0 <? n)%Z = true) as -> by by apply Z.ltb_lt.
  by rewrite map_map.
Qed.

Lemma send_last_lines_of_lines_witness :
  sent (send_last_lines "app.log" "app.log" 1 two_appended_state) =
    sent two_appended_state ++
    [(ToRoom "app.log", LogLine "app.log" (str "cd" ++ [LF]))].
Proof.
  apply (send_last_lines_of_lines "app.log" "app.log" 1 [str "ab"; str "cd"]
           two_appended_state).
  - lia.
  - apply (bool_decide_unpack _). vm_compute. exact I.
  - repeat constructor.
  - reflexivity.
Defined.

(** ** What a snapshot event looks like; [n ≤ 0] *)

Lemma splitlines_from_break_free b s : Forall break_free (splitlines_from b s).
Proof.
  revert b. induction s as [|c s IH]; intros b; simpl; [done|].
  destruct (b && Ascii.eqb c LF); [apply IH|].
  destruct (is_linebreak c) eqn:E.
  - apply Forall_cons. split; [by apply Forall_nil|apply IH].
  - specialize (IH false). destruct (splitlines_from false s) as [|l ls].
    + apply Forall_singleton. by apply Forall_singleton.
    + apply Forall_cons in IH as [Hl Hls]. apply Forall_cons.
      split; [by apply Forall_cons|done].
Qed.

Lemma slice_last_subseteq {A} (n : Z) (l : list A) : slice_last n l ⊆ l.
Proof. unfold slice_last. destruct (0 <? n)%Z; apply subseteq_drop. Qed.

Lemma last_lines_break_free content n lines :
  last_lines content n = Some lines → Forall break_free lines.
Proof.
  unfold last_lines. destruct (scan content n) as [[off data]|]; [|done].
  intros [= <-]. apply Forall_forall. intros l Hl.
  apply slice_last_subseteq in Hl.
  pose proof (splitlines_from_break_free false data) as H.
  rewrite Forall_forall in H. by apply H.
Qed.

(** X6: whatever [n] is, every event that [send_last_lines] emits for a
    readable file is a line event for that file, addressed to the room, whose
    text is one line without any line break character followed by a single
    ["\n"]. *)
Theorem send_last_lines_payloads filename room n content st :
  file_at st (os_path_join LOG_DIR filename) = Some content →
  ∃ lines, Forall break_free lines ∧
    sent (send_last_lines filename room n st) =
      sent st ++ map (λ l, (ToRoom room, LogLine filename (l ++ [LF]))) lines.
Proof.
  intros Hf. rewrite send_last_lines_eq. simpl. unfold snapshot_output.
  rewrite Hf. destruct (last_lines content n) as [lines|] eqn:E.
  - exists lines. split; [by eapply last_lines_break_free|].
    unfold snapshot_events. by rewrite map_map.
  - exists []. split; [done|]. by simpl.
Qed.

Lemma send_last_lines_payloads_witness :
  ∃ lines, Forall break_free lines ∧
    sent (send_last_lines "app.log" "app.log" 2 snap_state) =
      sent snap_state ++
      map (λ l, (ToRoom "app.log", LogLine "app.log" (l ++ [LF]))) lines.
Proof.
  apply (send_last_lines_payloads "app.log" "app.log" 2
           (str "a" ++ [LF] ++ str "b" ++ [LF] ++ str "c" ++ [LF]) snap_state).
  reflexivity.
Defined.

Lemma last_lines_negative content n : (n < 0)%Z → last_lines content n = Some [].
Proof.
  intros Hn. unfold last_lines, scan. rewrite scan_back_unfold.
  assert ((nlines [] <=? n)%Z = false) as ->
    by (apply Z.leb_gt; unfold nlines; simpl; lia).
  simpl. unfold slice_last, splitlines. simpl.
  destruct (0 <? n)%Z; rewrite ?drop_nil; done.
Qed.

(** X7: called with a negative [n] on a readable file, [send_last_lines]
    reads nothing and emits nothing: the state is unchanged. *)
Theorem send_last_lines_negative filename room n content st :
  (n < 0)%Z → file_at st (os_path_join LOG_DIR filename) = Some content →
  send_last_lines filename room n st = st.
Proof.
  intros Hn Hf. unfold send_last_lines. by rewrite Hf, last_lines_negative.
Qed.

Lemma send_last_lines_negative_witness :
  send_last_lines "app.log" "app.log" (-3) snap_state = snap_state.
Proof.
  apply (send_last_lines_negative "app.log" "app.log" (-3)%Z
           (str "a" ++ [LF] ++ str "b" ++ [LF] ++ str "c" ++ [LF]) snap_state).
  - lia.
  - reflexivity.
Defined.

(** X8: called with [n = 0] on a readable file that is not empty,
    [send_last_lines] reads the last block of the file (its last 4096 bytes,
    or all of it when it is shorter) and emits every line of that block, at
    least one: the slice [[-0:]] keeps the whole list. *)
Theorem send_last_lines_zero filename room content st :
  content ≠ [] →
  file_at st (os_path_join LOG_DIR filename) = Some content →
  let lines :=
    splitlines (read_from content (Z.max 0 (Z.of_nat (length content) - block))) in
  lines ≠ [] ∧
  sent (send_last_lines filename room 0 st) =
    sent st ++ map (λ l, (ToRoom room, LogLine filename (l ++ [LF]))) lines.
Proof.
  intros Hne Hf lines. destruct (last_lines_0 content Hne) as [Hl Hn].
  split; [done|]. rewrite send_last_lines_eq. simpl. unfold snapshot_output.
  rewrite Hf, Hl. unfold snapshot_events. by rewrite map_map.
Qed.

Lemma send_last_lines_zero_witness :
  sent (send_last_lines "app.log" "app.log" 0 two_appended_state) =
    sent two_appended_state ++
    [(ToRoom "app.log", LogLine "app.log" (str "ab" ++ [LF]));
     (ToRoom "app.log", LogLine "app.log" (str "cd" ++ [LF]))].
Proof.
  pose proof (send_last_lines_zero "app.log" "app.log"
                (join_lines [str "ab"; str "cd"]) two_appended_state
                ltac:(discriminate) eq_refl) as H.
  cbv zeta in H. destruct H as [_ H]. exact H.
Defined.

(** ** Between the snapshot and the worker's [open] *)

(** X9: bytes that are appended to the file after the snapshot of a join
    and before the join's worker opens the file are in the file but not in the
    snapshot, and they lie before the worker's cursor, which starts at the end
    of the file as it is at the [open]: the worker will not read them. *)
Theorem join_then_append_gap c filename content b st :
  filename ≠ ""%string →
  file_at st (os_path_join LOG_DIR filename) = Some content →
  let path := os_path_join LOG_DIR filename in
  let tid := length (threads st) in
  let st' := run st [Join c (Some filename); Append path b; Step tid] in
  file_at st' path = Some (content ++ b) ∧
  sent st' = sent st ++ (ToSid c, Joined filename) ::
    map (λ l, (ToRoom filename, LogLine filename (l ++ [LF])))
        (slice_last 200 (file_lines content)) ∧
  threads st' !! tid =
    Some (Worker filename filename AtLoopTop (length content + length b)).
Proof.
  intros Hne Hf path tid st'. unfold st'. cbn [run foldl step].
  rewrite on_join_eq by done.
  match goal with |- context [replace_worker ?f ?r ?s] =>
    pose proof (replace_worker_proj f r s) as (Hfs & _ & Hs & _ & Ht & _);
    set (st1 := replace_worker f r s) in * end.
  cbn [fs sent threads] in Hfs, Hs, Ht. clearbody st1.
  assert (file_at (append_file path b st1) path = Some (content ++ b)) as Hf2.
  { assert (file_at st1 path = Some content) as Hf1
      by (unfold file_at in *; by rewrite Hfs).
    unfold append_file. rewrite Hf1. unfold file_at. simpl.
    by rewrite lookup_insert_eq. }
  assert (threads (append_file path b st1) !! tid
          = Some (Worker filename filename AtOpen 0)) as Hw.
  { simpl. rewrite Ht. by rewrite lookup_app_r, Nat.sub_diag. }
  rewrite (worker_step_open tid _ (content ++ b) _ Hw eq_refl Hf2).
  split; [done|]. split.
  - simpl. rewrite Hs. f_equal. f_equal.
    rewrite (snapshot_output_readable _ _ content) by done.
    unfold snapshot_events. by rewrite map_map.
  - unfold set_pos_pc. simpl. rewrite length_app.
    apply list_lookup_insert_eq. by eapply lookup_lt_Some.
Qed.

Lemma join_then_append_gap_witness :
  threads (run snap_state
             [Join 1 (Some "app.log"%string);
              Append "/var/log/app.log" (str "lost" ++ [LF]); Step 0]) !! 0 =
    Some (Worker "app.log" "app.log" AtLoopTop 11).
Proof.
  pose proof (join_then_append_gap 1 "app.log"%string
                (str "a" ++ [LF] ++ str "b" ++ [LF] ++ str "c" ++ [LF])
                (str "lost" ++ [LF]) snap_state ltac:(done) eq_refl) as H.
  cbv zeta in H. destruct H as (_ & _ & H). exact H.
Defined.

(** * The file list and the folder store *)

(** ** [list_log_files] *)

#[global] Instance string_le_total : Total string_le.
Proof. intros a b. apply String.leb_total. Qed.

(** X10: [list_log_files] returns in sorted order the entries of the
    listing that are regular files under [LOG_DIR] and whose extension is
    [".log"] or empty, and only those; when the listing fails it returns the
    empty list. *)
Theorem list_log_files_spec listing st :
  Sorted string_le (list_log_files listing st) ∧
  (∀ f, f ∈ list_log_files listing st ↔
        ∃ entries, listing = Some entries ∧ f ∈ entries ∧
                   isfile st (os_path_join LOG_DIR f) = true ∧
                   allowed_ext (splitext f).2 = true) ∧
  (∀ entries, listing = Some entries → NoDup entries →
              NoDup (list_log_files listing st)).
Proof.
  unfold list_log_files. split; [apply Sorted_merge_sort, _|]. split.
  - intros f. rewrite merge_sort_Permutation. destruct listing as [entries|].
    + rewrite list_elem_of_filter. split.
      * intros [[H1 H2] H3]. by exists entries.
      * intros (es & [= <-] & H3 & H1 & H2). done.
    + split; [by intros ?%elem_of_nil|by intros (es & ? & _)].
  - intros entries -> Hnd. rewrite merge_sort_Permutation. by apply NoDup_filter.
Qed.

(** ** [_sanitize_filename] *)

Lemma basename_length p : String.length (basename p) ≤ String.length p.
Proof.
  induction p as [|c p IH]; simpl; [lia|].
  destruct (str_contains "/" p); [lia|].
  destruct (Ascii.eqb c "/"); simpl; lia.
Qed.

Lemma basename_id p : basename p = p ↔ str_contains "/" p = false.
Proof.
  destruct p as [|c p]; simpl; [done|].
  destruct (str_contains "/" p) eqn:E.
  - rewrite orb_true_r. split; [|done]. intros H.
    pose proof (basename_length p) as Hl. rewrite H in Hl. simpl in Hl. lia.
  - rewrite orb_false_r. destruct (Ascii.eqb c "/"); [|done].
    split; [|done]. intros H. apply (f_equal String.length) in H. simpl in H. lia.
Qed.

Lemma os_path_join_relative name :
  str_contains "/" name = false →
  os_path_join LOG_DIR name = ("/var/log/" ++ name)%string.
Proof.
  intros H. unfold os_path_join.
  assert (startswith_sep name = false) as ->.
  { destruct name as [|c name]; [done|]. simpl in *.
    by apply orb_false_iff in H as [-> _]. }
  reflexivity.
Qed.

Lemma str_contains_app_sep p g : str_contains "/" (p ++ String "/" g) = true.
Proof.
  induction p as [|c p IH]; simpl; [done|]. by rewrite IH, orb_true_r.
Qed.

Lemma basename_app_sep p g :
  str_contains "/" g = false → basename (p ++ String "/" g) = g.
Proof.
  intros Hg. induction p as [|c p IH]; simpl.
  - by rewrite Hg.
  - by rewrite str_contains_app_sep.
Qed.

(** X11: [_sanitize_filename] accepts a name, and returns it as it is,
    exactly when the name has no ["/"] and its extension is [".log"] or empty;
    an accepted name is joined to [LOG_DIR] as [LOG_DIR/name], a path whose
    last component is the name.  The names ["."] and [".."] are accepted
    too, so the joined path is not always an entry of [LOG_DIR]. *)
Theorem sanitize_filename_spec fname :
  (_sanitize_filename fname = Some fname ↔
     str_contains "/" fname = false ∧ allowed_ext (splitext fname).2 = true) ∧
  (∀ g, _sanitize_filename fname = Some g →
     g = fname ∧
     os_path_join LOG_DIR g = ("/var/log/" ++ g)%string ∧
     basename (os_path_join LOG_DIR g) = g) ∧
  _sanitize_filename "." = Some "."%string ∧
  _sanitize_filename ".." = Some ".."%string ∧
  os_path_join LOG_DIR ".." = "/var/log/.."%string.
Proof.
  assert (∀ g, _sanitize_filename fname = Some g →
            g = fname ∧ str_contains "/" fname = false ∧
            allowed_ext (splitext fname).2 = true) as Hacc.
  { intros g. unfold _sanitize_filename.
    destruct (String.eqb (basename fname) fname) eqn:E; [|done]. simpl.
    apply String.eqb_eq, basename_id in E.
    destruct (splitext fname) as [root ext]. simpl.
    destruct (allowed_ext ext); [|done]. simpl. by intros [= <-]. }
  split; [|split; [|done]].
  - split; [intros H; by destruct (Hacc _ H) as (_ & ? & ?)|].
    intros [Hs Ha]. unfold _sanitize_filename.
    apply basename_id in Hs. rewrite Hs, String.eqb_refl. simpl.
    destruct (splitext fname) as [root ext]. simpl in Ha. by rewrite Ha.
  - intros g Hg. destruct (Hacc g Hg) as (-> & Hs & _).
    split; [done|]. rewrite os_path_join_relative by done.
    split; [done|]. by apply (basename_app_sep "/var/log").
Qed.

Example sanitize_filename_examples :
  map _sanitize_filename
    ["app.log"; "a/b.log"; ".bashrc"; ".."; "app.log.1"; "syslog"; "/etc/passwd"]%string
  = [Some "app.log"; None; Some ".bashrc"; Some ".."; None; Some "syslog"; None]%string.
Proof. reflexivity. Qed.

(** ** The folder routes *)

Lemma list_remove_elem_ne x g l : g ≠ x → g ∈ list_remove x l ↔ g ∈ l.
Proof.
  intros Hne. induction l as [|y l IH]; simpl; [done|].
  destruct (String.eqb y x) eqn:E.
  - apply String.eqb_eq in E as ->. rewrite elem_of_cons.
    split; [by right|intros [?|?]; done].
  - rewrite !elem_of_cons, IH. done.
Qed.

Lemma list_remove_NoDup x l :
  NoDup l → NoDup (list_remove x l) ∧ x ∉ list_remove x l.
Proof.
  induction 1 as [|y l Hy Hl [IH1 IH2]]; simpl.
  - split; [constructor|by intros ?%elem_of_nil].
  - destruct (String.eqb y x) eqn:E.
    + apply String.eqb_eq in E as ->. done.
    + apply String.eqb_neq in E. split.
      * constructor; [|done]. by rewrite list_remove_elem_ne.
      * intros [?|?]%elem_of_cons; [congruence|done].
Qed.

Lemma save_folders_writable data d :
  store_writable d = true →
  _load_folders (_save_folders data d).2 = data ∧
  store_writable (_save_folders data d).2 = true.
Proof. intros H. unfold _save_folders. by rewrite H. Qed.

Lemma save_folders_unwritable data d :
  store_writable d = false → (_save_folders data d).2 = d.
Proof. intros H. unfold _save_folders. by rewrite H. Qed.

Lemma save_folders_load data d :
  _load_folders (_save_folders data d).2 = data ∨ (_save_folders data d).2 = d.
Proof. unfold _save_folders. destruct (store_writable d); [by left|by right]. Qed.

(** X12: [folders_create] answers ok exactly for a name that is not
    empty, has no ["/"] and no backslash, and is not yet a folder; whatever the
    name and the answer, every folder that was in the store is still there
    with the same files; and when the store can be written, an ok answer means
    that the store now also has the new, empty folder. *)
Theorem folders_create_spec name d :
  ((folders_create name d).1 = RespOk ↔
     name ≠ ""%string ∧ str_contains "/" name = false ∧
     str_contains "\" name = false ∧ _load_folders d !! name = None) ∧
  (∀ k l, _load_folders d !! k = Some l →
          _load_folders (folders_create name d).2 !! k = Some l) ∧
  (store_writable d = true → (folders_create name d).1 = RespOk →
   _load_folders (folders_create name d).2 = <[name := []]> (_load_folders d)).
Proof.
  unfold folders_create.
  destruct (String.eqb name "") eqn:E1; simpl.
  { apply String.eqb_eq in E1. repeat split; try done. by intros (? & _). }
  apply String.eqb_neq in E1.
  destruct (str_contains "/" name) eqn:E2; simpl.
  { repeat split; try done. by intros (_ & ? & _). }
  destruct (str_contains "\" name) eqn:E3; simpl.
  { repeat split; try done. by intros (_ & _ & ? & _). }
  destruct (_load_folders d !! name) as [l0|] eqn:E4; simpl.
  { repeat split; try done. by intros (_ & _ & _ & ?). }
  repeat split; try done.
  - intros k l Hk.
    destruct (save_folders_load (<[name:=[]]> (_load_folders d)) d) as [-> | ->];
      [|done].
    rewrite lookup_insert_ne; [done|]. intros <-. congruence.
  - intros Hw _. by apply save_folders_writable.
Qed.

(** X13: a route that answers with an error leaves the store as it was;
    this holds for [folders_move] also when the target folder is missing,
    where the file was already taken out of its folders in memory. *)
Theorem folder_error_keeps_store st name file target d :
  ((folders_create name d).1 ≠ RespOk → (folders_create name d).2 = d) ∧
  ((folders_delete name d).1 ≠ RespOk → (folders_delete name d).2 = d) ∧
  ((folders_move st file target d).1 ≠ RespOk →
   (folders_move st file target d).2 = d).
Proof.
  split; [|split].
  - unfold folders_create. destruct (_ || _); [done|].
    destruct (_ !! name); [done|]. simpl. by intros [].
  - unfold folders_delete. destruct (_ !! name); [|done]. simpl. by intros [].
  - unfold folders_move. destruct (_sanitize_filename file) as [f|]; [|done].
    destruct (String.eqb f ""); [done|]. destruct (negb _); [done|].
    destruct (String.eqb target ""); [simpl; by intros []|].
    destruct (_ !! target); [|done]. simpl. by intros [].
Qed.

(** X14: the routes do not look at what [_save_folders] returns: their
    answer is the same whether or not the store can be written, and when it
    cannot, the store is unchanged, also under an ok answer. *)
Theorem folder_routes_ignore_save_failure st name file target d :
  store_writable d = false →
  (folders_create name d).2 = d ∧ (folders_delete name d).2 = d ∧
  (folders_move st file target d).2 = d ∧
  (folders_create name d).1 = (folders_create name (Disk (folder_store d) true)).1 ∧
  (folders_delete name d).1 = (folders_delete name (Disk (folder_store d) true)).1 ∧
  (folders_move st file target d).1 =
    (folders_move st file target (Disk (folder_store d) true)).1.
Proof.
  intros Hw. repeat split.
  - unfold folders_create. destruct (_ || _); [done|].
    destruct (_ !! name); [done|]. simpl. by apply save_folders_unwritable.
  - unfold folders_delete. destruct (_ !! name); [|done]. simpl.
    by apply save_folders_unwritable.
  - unfold folders_move. destruct (_sanitize_filename file) as [f|]; [|done].
    destruct (String.eqb f ""); [done|]. destruct (negb _); [done|].
    destruct (String.eqb target ""); [simpl; by apply save_folders_unwritable|].
    destruct (_ !! target); [|done]. simpl. by apply save_folders_unwritable.
  - unfold folders_create, _load_folders. simpl. destruct (_ || _); [done|].
    by destruct (_ !! name).
  - unfold folders_delete, _load_folders. simpl. by destruct (_ !! name).
  - unfold folders_move, _load_folders. simpl.
    destruct (_sanitize_filename file) as [f|]; [|done].
    destruct (String.eqb f ""); [done|]. destruct (negb _); [done|].
    destruct (String.eqb target ""); [done|]. by destruct (_ !! target).
Qed.

Lemma folder_routes_ignore_save_failure_witness :
  folders_create "web" (Disk None false) = (RespOk, Disk None false).
Proof.
  pose proof (folder_routes_ignore_save_failure log_dir_state "web"%string
                "a.log"%string "web"%string (Disk None false) eq_refl)
    as (H & _).
  rewrite <- H at 2. reflexivity.
Defined.

(** X15: on a store that can be written, creating a folder and then
    deleting it are both answered ok and give back the folders that were there
    before. *)
Theorem folders_create_delete name d :
  store_writable d = true → (folders_create name d).1 = RespOk →
  (folders_delete name (folders_create name d).2).1 = RespOk ∧
  _load_folders (folders_delete name (folders_create name d).2).2 = _load_folders d.
Proof.
  intros Hw Hok. unfold folders_create in *.
  destruct (_ || _); [done|].
  destruct (_load_folders d !! name) eqn:E; [done|]. simpl.
  destruct (save_folders_writable (<[name:=[]]> (_load_folders d)) d Hw) as [Hl Hw'].
  unfold folders_delete. rewrite Hl, lookup_insert_eq. simpl. split; [done|].
  destruct (save_folders_writable
              (delete name (<[name:=[]]> (_load_folders d)))
              (_save_folders (<[name:=[]]> (_load_folders d)) d).2 Hw') as [-> _].
  rewrite delete_insert_eq. by apply delete_id.
Qed.

Lemma folders_create_delete_witness :
  _load_folders (folders_delete "tmp" (folders_create "tmp" two_folders).2).2 =
  _load_folders two_folders.
Proof.
  apply (folders_create_delete "tmp"%string two_folders); reflexivity.
Defined.

Lemma store_ok_save data d :
  store_ok d → (∀ k l, data !! k = Some l → NoDup l) →
  store_ok (_save_folders data d).2.
Proof.
  intros Hd Hdata. destruct (save_folders_load data d) as [H|H].
  - intros k l. rewrite H. apply Hdata.
  - by rewrite H.
Qed.

(** X16: for a file that [_sanitize_filename] accepts and that exists
    under [LOG_DIR], a store that can be written and holds each file at most
    once per folder, and a target that is empty or an existing folder,
    [folders_move] answers ok; afterwards the store has the same folders, the
    file is in the target folder and in no other (in none for the empty
    target), once, and every other file is where it was. *)
Theorem folders_move_spec st file target d :
  _sanitize_filename file = Some file → file ≠ ""%string →
  isfile st (os_path_join LOG_DIR file) = true →
  store_writable d = true → store_ok d →
  target = ""%string ∨ is_Some (_load_folders d !! target) →
  (folders_move st file target d).1 = RespOk ∧
  ∀ k, match _load_folders d !! k with
       | None => _load_folders (folders_move st file target d).2 !! k = None
       | Some l =>
           ∃ l', _load_folders (folders_move st file target d).2 !! k = Some l' ∧
                 NoDup l' ∧
                 (file ∈ l' ↔ target ≠ ""%string ∧ k = target) ∧
                 ∀ g, g ≠ file → (g ∈ l' ↔ g ∈ l)
       end.
Proof.
  intros Hs Hne Hf Hw Hok Ht. unfold folders_move. rewrite Hs.
  assert (String.eqb file "" = false) as -> by by apply String.eqb_neq.
  rewrite Hf. simpl.
  assert (∀ k, match _load_folders d !! k with
               | None => (list_remove file <$> _load_folders d) !! k = None
               | Some l =>
                   ∃ l', (list_remove file <$> _load_folders d) !! k = Some l' ∧
                         NoDup l' ∧ (file ∉ l') ∧ ∀ g, g ≠ file → (g ∈ l' ↔ g ∈ l)
               end) as Hrem.
  { intros k. rewrite lookup_fmap. destruct (_load_folders d !! k) as [l|] eqn:E; [|done].
    simpl. exists (list_remove file l).
    destruct (list_remove_NoDup file l (Hok k l E)) as [H1 H2].
    repeat split; try done; by apply list_remove_elem_ne. }
  destruct (String.eqb target "") eqn:Et.
  - apply String.eqb_eq in Et as ->. simpl. split; [done|].
    destruct (save_folders_writable (list_remove file <$> _load_folders d) d Hw) as [-> _].
    intros k. specialize (Hrem k). destruct (_load_folders d !! k); [|done].
    destruct Hrem as (l' & H1 & H2 & H3 & H4). exists l'.
    split; [done|]. split; [done|]. split; [|done].
    split; [done|by intros (? & _)].
  - apply String.eqb_neq in Et. destruct Ht as [?|[l0 Hl0]]; [done|].
    pose proof (Hrem target) as Hrt. rewrite Hl0 in Hrt.
    destruct Hrt as (lt & Hlt & Hnd & Hnot & Hsame). rewrite Hlt. simpl.
    split; [done|]. rewrite bool_decide_eq_false_2 by done.
    match goal with |- context [_save_folders ?data d] =>
      destruct (save_folders_writable data d Hw) as [-> _] end.
    intros k. specialize (Hrem k). destruct (decide (k = target)) as [->|Hk].
    + rewrite Hl0. exists (lt ++ [file]). rewrite lookup_insert_eq.
      repeat split; try done.
      * apply NoDup_app. repeat split; [done| |apply NoDup_singleton].
        by intros x Hx ->%list_elem_of_singleton.
      * intros _. apply elem_of_app. right. by apply list_elem_of_singleton.
      * intros [Hg|Hg%list_elem_of_singleton]%elem_of_app; [by apply Hsame|done].
      * intros Hg. apply elem_of_app. left. by apply Hsame.
    + rewrite lookup_insert_ne by done.
      destruct (_load_folders d !! k); [|done].
      destruct Hrem as (l' & H1 & H2 & H3 & H4). exists l'.
      split; [done|]. split; [done|]. split; [|done].
      split; [done|by intros (_ & ?)].
Qed.

Lemma folders_move_spec_witness :
  (folders_move log_dir_state "a.log" "db" two_folders).1 = RespOk ∧
  _load_folders (folders_move log_dir_state "a.log" "db" two_folders).2
    !! "db"%string = Some ["a.log"%string] ∧
  _load_folders (folders_move log_dir_state "a.log" "db" two_folders).2
    !! "web"%string = Some [].
Proof.
  destruct (folders_move_spec log_dir_state "a.log"%string "db"%string two_folders)
    as [H _]; try reflexivity; try done.
  - change (map_Forall (λ _ l, NoDup l) (_load_folders two_folders)).
    apply (bool_decide_unpack _). vm_compute. exact I.
  - right. by eexists.
Defined.

(** X17: the three routes keep the store well formed: when no folder
    holds a file twice before a request, none does after it. *)
Theorem folder_routes_keep_store_ok st name file target d :
  store_ok d →
  store_ok (folders_create name d).2 ∧
  store_ok (folders_delete name d).2 ∧
  store_ok (folders_move st file target d).2.
Proof.
  intros Hok. repeat split.
  - unfold folders_create. destruct (_ || _); [done|].
    destruct (_ !! name) eqn:E; [done|]. simpl. apply store_ok_save; [done|].
    intros k' l'. destruct (decide (name = k')) as [->|?].
    + rewrite lookup_insert_eq. intros [= <-]. apply NoDup_nil_2.
    + rewrite lookup_insert_ne by done. apply Hok.
  - unfold folders_delete. destruct (_ !! name) eqn:E; [|done]. simpl.
    apply store_ok_save; [done|]. intros k' l' Hk.
    apply lookup_delete_Some in Hk as [_ Hk]. by eapply Hok.
  - unfold folders_move. destruct (_sanitize_filename file) as [f|]; [|done].
    destruct (String.eqb f ""); [done|]. destruct (negb _); [done|].
    assert (∀ k l, (list_remove f <$> _load_folders d) !! k = Some l → NoDup l) as Hrem.
    { intros k' l'. rewrite lookup_fmap.
      destruct (_load_folders d !! k') as [l1|] eqn:E; [|done]. simpl.
      intros [= <-]. by apply list_remove_NoDup, (Hok k'). }
    destruct (String.eqb target ""); [simpl; by apply store_ok_save|].
    destruct (_ !! target) as [l0|] eqn:E; [|done]. simpl.
    apply store_ok_save; [done|]. case_bool_decide as Hin; [done|].
    intros k' l'. destruct (decide (target = k')) as [->|?].
    + rewrite lookup_insert_eq. intros [= <-].
      apply NoDup_app. repeat split; [by eapply Hrem| |apply NoDup_singleton].
      by intros x Hx ->%list_elem_of_singleton.
    + rewrite lookup_insert_ne by done. apply Hrem.
Qed.

Lemma folder_routes_keep_store_ok_witness :
  (folders_create "tmp" two_folders).1 = RespOk ∧
  (folders_delete "web" two_folders).1 = RespOk ∧
  (folders_move log_dir_state "a.log" "db" two_folders).1 = RespOk ∧
  store_ok (folders_create "tmp" two_folders).2 ∧
  store_ok (folders_delete "web" two_folders).2 ∧
  store_ok (folders_move log_dir_state "a.log" "db" two_folders).2.
Proof.
  split; [vm_compute; reflexivity|]. split; [vm_compute; reflexivity|].
  split; [vm_compute; reflexivity|].
  assert (store_ok two_folders) as Hok.
  { change (map_Forall (λ _ l, NoDup l) (_load_folders two_folders)).
    apply (bool_decide_unpack _). vm_compute. exact I. }
  split; [|split].
  - exact (proj1 (folder_routes_keep_store_ok log_dir_state "tmp"%string
                    "a.log"%string "db"%string two_folders Hok)).
  - exact (proj1 (proj2 (folder_routes_keep_store_ok log_dir_state "web"%string
                    "a.log"%string "db"%string two_folders Hok))).
  - exact (proj2 (proj2 (folder_routes_keep_store_ok log_dir_state "web"%string
                    "a.log"%string "db"%string two_folders Hok))).
Defined.

(** ** [logs_list] *)

Lemma elem_of_assigned (m : gmap string (list string)) f :
  f ∈ concat (map snd (map_to_list m)) ↔ ∃ k l, m !! k = Some l ∧ f ∈ l.
Proof.
  rewrite list_elem_of_In, in_concat. split.
  - intros (l & Hl & Hf). apply list_elem_of_In, list_elem_of_fmap in Hl
      as ([k l'] & -> & Hkl). apply elem_of_map_to_list in Hkl.
    exists k, l'. split; [done|]. by apply list_elem_of_In.
  - intros (k & l & Hk & Hf). exists l. split; [|by apply list_elem_of_In].
    apply list_elem_of_In, list_elem_of_fmap. exists (k, l).
    split; [done|]. by apply elem_of_map_to_list.
Qed.

(** X18: in the answer of [logs_list] every folder of the store appears
    with those of its files that [list_log_files] lists, and the unsorted list
    holds exactly the listed files that no folder of the store holds: each
    listed file is shown, in a folder or as unsorted, and no file is shown that
    is not listed. *)
Theorem logs_list_spec listing st d :
  let files := list_log_files listing st in
  (∀ k, (logs_list listing st d).1 !! k =
        filter (λ f, f ∈ files) <$> (_load_folders d !! k)) ∧
  (∀ k l f, (logs_list listing st d).1 !! k = Some l → f ∈ l → f ∈ files) ∧
  (∀ f, f ∈ (logs_list listing st d).2 ↔
        f ∈ files ∧ ∀ k l, _load_folders d !! k = Some l → f ∉ l) ∧
  (∀ f, f ∈ files →
        f ∈ (logs_list listing st d).2 ∨
        ∃ k l, (logs_list listing st d).1 !! k = Some l ∧ f ∈ l).
Proof.
  intros files. unfold logs_list. fold files. simpl.
  assert (∀ k, (filter (λ f, f ∈ files) <$> _load_folders d) !! k =
               filter (λ f, f ∈ files) <$> (_load_folders d !! k)) as Hk
    by (intros k; apply lookup_fmap).
  assert (∀ f, f ∈ files →
            (∃ k l, (filter (λ f, f ∈ files) <$> _load_folders d) !! k = Some l ∧ f ∈ l)
            ↔ ∃ k l, _load_folders d !! k = Some l ∧ f ∈ l) as Hfold.
  { intros f Hf. split.
    - intros (k & l & Hl & Hin). rewrite Hk in Hl.
      destruct (_load_folders d !! k) as [l0|] eqn:E; [|done]. injection Hl as <-.
      exists k, l0. split; [done|]. by apply list_elem_of_filter in Hin as [_ ?].
    - intros (k & l & Hl & Hin). exists k, (filter (λ f, f ∈ files) l).
      rewrite Hk, Hl. split; [done|]. by apply list_elem_of_filter. }
  split; [done|]. split.
  { intros k l f Hl Hin. rewrite Hk in Hl.
    destruct (_load_folders d !! k) as [l0|]; [|done]. injection Hl as <-.
    by apply list_elem_of_filter in Hin as [? _]. }
  assert (∀ f, f ∈ filter (λ f, f ∉ concat (map snd (map_to_list
                 (filter (λ f, f ∈ files) <$> _load_folders d)))) files
             ↔ f ∈ files ∧ ∀ k l, _load_folders d !! k = Some l → f ∉ l) as Hun.
  { intros f. rewrite list_elem_of_filter, elem_of_assigned. split.
    - intros [Hn Hf]. split; [done|]. intros k l Hl Hin. apply Hn.
      apply Hfold; [done|]. by exists k, l.
    - intros [Hf Hn]. split; [|done]. intros H. apply Hfold in H; [|done].
      destruct H as (k & l & Hl & Hin). by apply (Hn k l). }
  split; [done|].
  intros f Hf.
  destruct (decide (f ∈ concat (map snd (map_to_list
              (filter (λ f, f ∈ files) <$> _load_folders d))))) as [Hin|Hn].
  - right. by apply elem_of_assigned.
  - left. by apply list_elem_of_filter.
Qed.

(** * [load_auth] *)

Lemma readline_nonempty (s : text) :
  s ≠ [] → ∃ x line k, readline s = (x :: line, S k) ∧ S k ≤ length s.
Proof.
  induction s as [|c s IH]; [done|]. intros _. simpl.
  destruct (Ascii.eqb c LF); [eexists _, _, _; split; [done|lia]|].
  destruct (Ascii.eqb c CR).
  - destruct s as [|c' s]; [eexists _, _, _; split; [done|simpl; lia]|].
    destruct (Ascii.eqb c' LF); eexists _, _, _; (split; [done|simpl; lia]).
  - destruct s as [|c' s].
    + simpl. eexists _, _, _. split; [done|lia].
    + destruct IH as (x & line & k & -> & Hk); [done|].
      eexists _, _, _. split; [done|]. simpl in *. lia.
Qed.

Lemma file_iter_fuel fuel1 : ∀ fuel2 s,
  length s ≤ fuel1 → length s ≤ fuel2 → file_iter fuel1 s = file_iter fuel2 s.
Proof.
  induction fuel1 as [|fuel1 IH]; intros fuel2 s H1 H2.
  - destruct s; [|simpl in H1; lia]. by destruct fuel2.
  - destruct s as [|c s]; [by destruct fuel2|].
    destruct fuel2 as [|fuel2]; [simpl in H2; lia|].
    destruct (readline_nonempty (c :: s)) as (x & line & k & Hr & Hk); [done|].
    cbn [file_iter]. rewrite Hr. f_equal.
    apply IH; rewrite length_drop; simpl in *; lia.
Qed.

Lemma readlines_unfold (s : text) x line k :
  readline s = (x :: line, S k) → S k ≤ length s →
  readlines s = (x :: line) :: readlines (drop (S k) s).
Proof.
  intros Hr Hk. unfold readlines. destruct (length s) as [|n] eqn:En; [lia|].
  cbn [file_iter]. rewrite Hr. f_equal.
  apply file_iter_fuel; rewrite length_drop; lia.
Qed.

Lemma readline_app_LF (pre s : text) :
  last pre = Some LF → readline (pre ++ s) = readline pre.
Proof.
  induction pre as [|c pre IH]; [done|]. intros Hl. simpl.
  destruct (Ascii.eqb c LF) eqn:E1; [done|].
  assert (pre ≠ []) as Hne.
  { intros ->. simpl in Hl. injection Hl as ->. by rewrite Ascii.eqb_refl in E1. }
  destruct pre as [|c' pre]; [done|].
  destruct (Ascii.eqb c CR); [done|].
  rewrite IH; [done|]. by rewrite last_cons_cons in Hl.
Qed.

Lemma readlines_app_aux n : ∀ pre s : text,
  length pre ≤ n → pre = [] ∨ last pre = Some LF →
  readlines (pre ++ s) = readlines pre ++ readlines s.
Proof.
  induction n as [|n IH]; intros pre s Hn Hl.
  - destruct pre; [done|simpl in Hn; lia].
  - destruct Hl as [->|Hl]; [done|].
    assert (pre ≠ []) as Hne by (intros ->; done).
    destruct (readline_nonempty pre Hne) as (x & line & k & Hr & Hk).
    rewrite (readlines_unfold pre x line k Hr Hk).
    rewrite (readlines_unfold (pre ++ s) x line k).
    + rewrite drop_app_le by lia. rewrite IH; [done|rewrite length_drop; lia|].
      destruct (drop (S k) pre) as [|y rest] eqn:Ed; [by left|right].
      assert (last (drop (S k) pre) = Some LF) as H; [|by rewrite Ed in H].
      rewrite last_lookup, lookup_drop, length_drop.
      rewrite last_lookup in Hl. rewrite <- Hl. f_equal.
      apply (f_equal length) in Ed. rewrite length_drop in Ed. simpl in Ed. lia.
    + by rewrite readline_app_LF.
    + rewrite length_app. lia.
Qed.

Lemma readlines_app (pre s : text) :
  pre = [] ∨ last pre = Some LF →
  readlines (pre ++ s) = readlines pre ++ readlines s.
Proof. by apply (readlines_app_aux (length pre)). Qed.

Lemma readlines_line (l : text) :
  LF ∉ l → CR ∉ l → readlines (l ++ [LF]) = [l ++ [LF]].
Proof.
  intros Hlf Hcr. pose proof (readline_line l [] Hlf Hcr) as Hr.
  destruct (l ++ [LF]) as [|x line] eqn:E; [by destruct l|].
  rewrite (readlines_unfold _ x line (length l) Hr).
  - rewrite drop_ge; [done|]. rewrite <- E, length_app. simpl. lia.
  - rewrite <- E, length_app. simpl. lia.
Qed.

Lemma lstrip_id (s : text) :
  (∀ c, head s = Some c → is_space c = false) → lstrip s = s.
Proof. destruct s as [|c s]; [done|]. intros H. simpl. by rewrite (H c). Qed.

Lemma strip_line (k v : text) :
  (∀ c, head k = Some c → is_space c = false) →
  (∀ c, last v = Some c → is_space c = false) →
  strip (k ++ "="%char :: v ++ [LF]) = k ++ "="%char :: v.
Proof.
  intros Hk Hv. unfold strip.
  assert (lstrip (k ++ "="%char :: v ++ [LF]) = k ++ "="%char :: v ++ [LF]) as ->.
  { apply lstrip_id. intros c. destruct k; simpl; [by intros [= <-]|].
    intros H. by apply Hk. }
  replace (k ++ "="%char :: v ++ [LF]) with ((k ++ "="%char :: v) ++ [LF])
    by (rewrite <- app_assoc; done).
  rewrite reverse_snoc. simpl. rewrite lstrip_id; [by rewrite reverse_involutive|].
  intros c. rewrite head_reverse.
  replace (k ++ "="%char :: v) with ((k ++ ["="%char]) ++ v)
    by (rewrite <- app_assoc; done).
  destruct v as [|y v] using rev_ind.
  - rewrite app_nil_r, last_snoc. by intros [= <-].
  - rewrite app_assoc, last_snoc. intros [= <-]. apply Hv. by rewrite last_snoc.
Qed.

Lemma split_eq_first (k v : text) :
  "="%char ∉ k → split_eq (k ++ "="%char :: v) = Some (k, v).
Proof.
  induction k as [|c k IH]; intros Hk; simpl; [done|].
  assert (Ascii.eqb c "=" = false) as ->.
  { apply Ascii.eqb_neq. intros ->. apply Hk. by left. }
  rewrite IH; [done|]. intros H. apply Hk. by right.
Qed.

Lemma auth_data_last_line (pre k v : text) :
  pre = [] ∨ last pre = Some LF →
  ("="%char ∉ k) → (LF ∉ k) → (CR ∉ k) →
  (∀ c, head k = Some c → is_space c = false) →
  (LF ∉ v) → (CR ∉ v) → (∀ c, last v = Some c → is_space c = false) →
  auth_data (pre ++ k ++ "="%char :: v ++ [LF]) =
  <[string_of_list_ascii k := string_of_list_ascii v]> (auth_data pre).
Proof.
  intros Hpre Hke Hkl Hkc Hks Hvl Hvc Hvs. unfold auth_data.
  rewrite readlines_app by done.
  replace (k ++ "="%char :: v ++ [LF]) with ((k ++ "="%char :: v) ++ [LF])
    by (rewrite <- app_assoc; done).
  rewrite readlines_line.
  - rewrite foldl_app. simpl. unfold auth_line at 1.
    assert (existsb (Ascii.eqb "=") ((k ++ "="%char :: v) ++ [LF]) = true) as ->.
    { rewrite <- app_assoc. rewrite existsb_app. simpl. by rewrite orb_true_r. }
    replace ((k ++ "="%char :: v) ++ [LF]) with (k ++ "="%char :: v ++ [LF])
      by (rewrite <- app_assoc; done).
    by rewrite strip_line, split_eq_first.
  - intros [H|[H|H]%elem_of_cons]%elem_of_app; done.
  - intros [H|[H|H]%elem_of_cons]%elem_of_app; done.
Qed.

(** X19: when the credentials file is ASCII text and ends with a line
    [k=v] (the text
    before it being empty or ending in a newline, [k] without ["="] and not
    starting with white space, [v] not ending with white space, neither holding
    a line end), [load_auth] reads the entries of the lines before, with [k]
    set to [v]: a later line overrides an earlier one for the same key, the
    value is everything after the first ["="], and other keys are kept. *)
Theorem load_auth_last_line (pre k v : text) :
  ascii_text pre → ascii_text k → ascii_text v →
  pre = [] ∨ last pre = Some LF →
  ("="%char ∉ k) → (LF ∉ k) → (CR ∉ k) →
  (∀ c, head k = Some c → is_space c = false) →
  (LF ∉ v) → (CR ∉ v) → (∀ c, last v = Some c → is_space c = false) →
  let data := <[string_of_list_ascii k := string_of_list_ascii v]> (auth_data pre) in
  load_auth (Some (pre ++ k ++ "="%char :: v ++ [LF])) =
    Some (data !! "USERNAME"%string, data !! "PASSWORD_HASH"%string).
Proof.
  intros _ _ _ Hpre Hke Hkl Hkc Hks Hvl Hvc Hvs data. unfold load_auth.
  by rewrite auth_data_last_line.
Qed.

Lemma load_auth_last_line_witness :
  load_auth (Some (auth_head ++ str "USERNAME" ++ "="%char :: str "admin" ++ [LF])) =
    Some (Some "admin"%string, Some "scrypt:32768$ab=cd"%string).
Proof.
  rewrite (load_auth_last_line auth_head (str "USERNAME") (str "admin")).
  - reflexivity.
  - apply (bool_decide_unpack _). vm_compute. exact I.
  - apply (bool_decide_unpack _). vm_compute. exact I.
  - apply (bool_decide_unpack _). vm_compute. exact I.
  - right. reflexivity.
  - apply (bool_decide_unpack _). vm_compute. exact I.
  - apply (bool_decide_unpack _). vm_compute. exact I.
  - apply (bool_decide_unpack _). vm_compute. exact I.
  - intros c [= <-]. reflexivity.
  - apply (bool_decide_unpack _). vm_compute. exact I.
  - apply (bool_decide_unpack _). vm_compute. exact I.
  - intros c [= <-]. reflexivity.
Defined.

(** * Stopping, and who receives what *)

Lemma on_leave_must_stop c filename a e st :
  filename ≠ ""%string →
  tail_threads st !! filename = Some a → heap st !! a = Some e →
  must_stop filename (on_leave c (Some filename) st) = true ∧
  threads (on_leave c (Some filename) st) = threads st ∧
  sent (on_leave c (Some filename) st) = sent st ∧
  fs (on_leave c (Some filename) st) = fs st.
Proof.
  intros Hne Ha He. rewrite (on_leave_eq _ _ a) by done.
  destruct (leave_room_proj c filename st) as (Hfs & Hh & Ht & Hth & Hs & _ & _).
  destruct (mark_stop_proj a (leave_room c filename st))
    as (Hfs' & _ & Ht' & Hth' & Hs' & _ & _).
  split; [|by rewrite Hfs', Hth', Hs', Hfs, Hth, Hs].
  unfold must_stop. rewrite Ht', Ht, Ha.
  by rewrite (mark_stop_heap a e) by by rewrite Hh.
Qed.

Lemma worker_step_read_cases tid w st :
  threads st !! tid = Some w → w_pc w = AtRead →
  worker_step tid st = set_pc tid w AtLoopTop st ∨
  ∃ line k, worker_step tid st =
    set_pos_pc tid w (w_pos w + k) AtLoopTop
      (socketio_emit (LogLine (w_file w) line) (w_room w) st).
Proof.
  intros Hw Hpc. unfold worker_step. rewrite Hw. simpl. rewrite Hpc.
  destruct (readline _) as [[|x line] k]; [by left|right]. by exists (x :: line), k.
Qed.

(** A worker in its loop that is to stop has exited after three steps. *)
Lemma stopping_worker_exits tid w st :
  threads st !! tid = Some w → w_pc w = AtLoopTop ∨ w_pc w = AtRead →
  must_stop (w_room w) st = true →
  let st' := run st [Step tid; Step tid; Step tid] in
  (∃ pos, threads st' !! tid = Some (Worker (w_file w) (w_room w) Exited pos)) ∧
  tail_threads st' !! w_room w = None ∧
  (sent st' = sent st ∨
   ∃ line, sent st' = sent st ++ [(ToRoom (w_room w), LogLine (w_file w) line)]).
Proof.
  intros Hw Hpc Hstop st'.
  assert (∀ s (wk : worker), threads s !! tid = Some wk → w_pc wk = AtLoopTop →
            w_file wk = w_file w → w_room wk = w_room w →
            must_stop (w_room w) s = true →
            let s' := run s [Step tid; Step tid] in
            threads s' !! tid = Some (Worker (w_file w) (w_room w) Exited (w_pos wk)) ∧
            tail_threads s' !! w_room w = None ∧ sent s' = sent s ∧
            run s' [Step tid] = s') as Htop.
  { intros s wk Hwk Hp Hf Hr Hst. cbn [run foldl step].
    rewrite (worker_step_loop_top _ _ _ Hwk Hp), Hr, Hst.
    pose proof (set_pc_thread tid wk AtCleanup s Hwk) as H1.
    rewrite (worker_step_cleanup _ _ _ H1 eq_refl).
    match goal with |- context [set_pc tid ?w1 Exited ?s1] =>
      assert (threads (set_pc tid w1 Exited s1) !! tid
              = Some (Worker (w_file w) (w_room w) Exited (w_pos wk))) as H2 end.
    { unfold set_pc. simpl. rewrite Hf, Hr. apply list_lookup_insert_eq.
      rewrite length_insert. by eapply lookup_lt_Some. }
    split; [done|]. split; [simpl; by rewrite Hr, lookup_delete_eq|].
    split; [done|]. by rewrite (worker_step_exited _ _ _ H2 eq_refl). }
  destruct Hpc as [Hpc|Hpc].
  - destruct (Htop st w Hw Hpc eq_refl eq_refl Hstop) as (H1 & H2 & H3 & H4).
    unfold st'. change (run st [Step tid; Step tid; Step tid])
      with (run (run st [Step tid; Step tid]) [Step tid]).
    rewrite H4. split; [by eexists|]. split; [done|by left].
  - unfold st'. change (run st [Step tid; Step tid; Step tid])
      with (run (worker_step tid st) [Step tid; Step tid]).
    destruct (worker_step_read_cases tid w st Hw Hpc) as [->|(line & k & ->)].
    + pose proof (set_pc_thread tid w AtLoopTop st Hw) as Hw1.
      destruct (Htop _ _ Hw1 eq_refl eq_refl eq_refl Hstop)
        as (H1 & H2 & H3 & _).
      split; [by eexists|]. split; [done|]. left. by rewrite H3.
    + match goal with |- context [run ?s1 _] => set (st1 := s1) end.
      assert (threads st1 !! tid
              = Some (Worker (w_file w) (w_room w) AtLoopTop (w_pos w + k))) as Hw1.
      { unfold st1, set_pos_pc. simpl. apply list_lookup_insert_eq.
        by eapply lookup_lt_Some. }
      destruct (Htop st1 _ Hw1 eq_refl eq_refl eq_refl Hstop)
        as (H1 & H2 & H3 & _).
      split; [by eexists|]. split; [done|]. right.
      exists line. by rewrite H3.
Qed.

(** X20: after a leave request for a room that has an entry, a worker of
    the room that is in its loop emits at most one more line and has exited
    after three of its steps, and its cleanup has removed the room's entry. *)
Theorem leave_then_worker_exits c filename a e tid w st :
  filename ≠ ""%string →
  tail_threads st !! filename = Some a → heap st !! a = Some e →
  threads st !! tid = Some w → w_room w = filename →
  w_pc w = AtLoopTop ∨ w_pc w = AtRead →
  let st' := run st [Leave c (Some filename); Step tid; Step tid; Step tid] in
  (∃ pos, threads st' !! tid = Some (Worker (w_file w) filename Exited pos)) ∧
  tail_threads st' !! filename = None ∧
  (sent st' = sent st ∨
   ∃ line, sent st' = sent st ++ [(ToRoom filename, LogLine (w_file w) line)]).
Proof.
  intros Hne Ha He Hw Hr Hpc st'.
  destruct (on_leave_must_stop c filename a e st Hne Ha He) as (Hstop & Hth & Hs & _).
  assert (threads (on_leave c (Some filename) st) !! tid = Some w) as Hw'
    by by rewrite Hth.
  subst filename.
  destruct (stopping_worker_exits tid w _ Hw' Hpc Hstop) as (H1 & H2 & H3).
  by rewrite Hs in H3.
Qed.

Lemma leave_then_worker_exits_witness :
  tail_threads (run tailing_state
     [Leave 1 (Some "app.log"%string); Step 0; Step 0; Step 0])
    !! "app.log"%string = None.
Proof.
  pose proof (leave_then_worker_exits 1 "app.log"%string 0
                (Entry (Some 0) false "app.log") 0
                (Worker "app.log" "app.log" AtLoopTop 6) tailing_state
                ltac:(done) eq_refl eq_refl eq_refl eq_refl
                (or_introl eq_refl)) as H.
  cbv zeta in H. destruct H as (_ & H & _). exact H.
Defined.

Lemma deliveries_not_member c (ms : list sid) evs :
  c ∉ ms → filter (λ p : sid * event, p.1 = c) (deliveries ms evs) = [].
Proof.
  intros Hc. induction evs as [|ev evs IH]; simpl; [done|].
  rewrite filter_app, IH, app_nil_r. clear IH.
  induction ms as [|x ms IH]; simpl; [done|].
  rewrite filter_cons. simpl. rewrite decide_False.
  - apply IH. intros H. apply Hc. by right.
  - intros ->. apply Hc. by left.
Qed.

Lemma worker_step_inbox tid st :
  inbox (worker_step tid st) = inbox st ∨
  ∃ room ev, inbox (worker_step tid st) =
             inbox st ++ deliveries (room_members st room) [ev].
Proof.
  unfold worker_step. destruct (threads st !! tid) as [w|]; [|by left]. simpl.
  destruct (w_pc w); try by left.
  - destruct (file_at st _); [by left|]. right. eexists _, _. simpl.
    by rewrite app_nil_r.
  - by destruct (must_stop _ _); left.
  - destruct (readline _) as [[|x line] k]; [by left|]. right. eexists _, _.
    simpl. by rewrite app_nil_r.
Qed.

Lemma step_non_member c st a :
  (∀ room, c ∉ room_members st room) → not_join_of c a →
  received c (step st a) = received c st ∧
  ∀ room, c ∉ room_members (step st a) room.
Proof.
  intros Hc Ha. destruct a as [c' file|c' file|c'|tid|p b]; simpl in *.
  - destruct (on_join_cases c' file st) as [->|(filename & -> & Hne)]; [done|].
    assert (∀ room, c ∉ room_members (join_room c' filename st) room) as Hj.
    { intros room. destruct (decide (filename = room)) as [<-|Hr].
      - rewrite join_room_members. case_bool_decide; [done|].
        intros [?| ->%list_elem_of_singleton]%elem_of_app; [by eapply Hc|done].
      - by rewrite join_room_other. }
    split.
    + rewrite on_join_eq by done. unfold received.
      match goal with |- context [replace_worker ?f ?r ?s] =>
        destruct (replace_worker_proj f r s) as (_ & _ & _ & -> & _) end.
      simpl. rewrite filter_app, filter_cons. simpl.
      rewrite decide_False by done.
      by rewrite deliveries_not_member, app_nil_r.
    + intros room. unfold room_members.
      rewrite (proj1 (on_join_members c' filename st Hne)). apply Hj.
  - assert (∀ filename room, c ∉ room_members (leave_room c' filename st) room) as Hl.
    { intros filename room. destruct (decide (filename = room)) as [<-|Hr].
      - destruct (leave_room_proj c' filename st) as (_ & _ & _ & _ & _ & _ & ->).
        intros [_ ?]%list_elem_of_filter. by eapply Hc.
      - by rewrite leave_room_other. }
    destruct (on_leave_cases c' file st)
      as [->|(filename & -> & Hne & [->|[a ->]])]; [done| |].
    + split; [|apply Hl]. unfold received.
      by destruct (leave_room_proj c' filename st) as (_ & _ & _ & _ & _ & -> & _).
    + destruct (mark_stop_proj a (leave_room c' filename st))
        as (_ & Hm & _ & _ & _ & Hi & _).
      split.
      * unfold received. rewrite Hi.
        by destruct (leave_room_proj c' filename st) as (_ & _ & _ & _ & _ & -> & _).
      * intros room. unfold room_members. rewrite Hm. apply Hl.
  - unfold on_disconnect. split; [done|]. intros room.
    rewrite leave_all_rooms_members.
    intros [_ ?]%list_elem_of_filter. by eapply Hc.
  - split.
    + unfold received.
      destruct (worker_step_inbox tid st) as [->|(room & ev & ->)]; [done|].
      by rewrite filter_app, deliveries_not_member, app_nil_r.
    + intros room. unfold room_members.
      destruct (worker_step_proj tid st) as (_ & -> & _). apply Hc.
  - done.
Qed.

(** X21: a connection that is in no room, and sends no join request,
    receives nothing: no join or leave of another connection, no worker step
    and no append to a file delivers an event to it or puts it in a room. *)
Theorem non_member_receives_nothing c l : ∀ st,
  (∀ room, c ∉ room_members st room) → Forall (not_join_of c) l →
  received c (run st l) = received c st ∧
  ∀ room, c ∉ room_members (run st l) room.
Proof.
  induction l as [|a l IH]; intros st Hc Hl; [done|].
  apply Forall_cons in Hl as [Ha Hl].
  destruct (step_non_member c st a Hc Ha) as [Hr Hm].
  destruct (IH (step st a) Hm Hl) as [IHr IHm].
  simpl. split; [by rewrite IHr|done].
Qed.

Lemma non_member_receives_nothing_witness :
  received 9 (run snap_state
    [Join 1 (Some "app.log"%string); Step 0; Step 0;
     Append "/var/log/app.log" (str "x" ++ [LF]); Step 0;
     Leave 9 (Some "app.log"%string)]) = [].
Proof.
  apply (non_member_receives_nothing 9
           [Join 1 (Some "app.log"%string); Step 0; Step 0;
            Append "/var/log/app.log" (str "x" ++ [LF]); Step 0;
            Leave 9 (Some "app.log"%string)] snap_state).
  - intros room. unfold room_members. simpl. rewrite lookup_empty.
    apply not_elem_of_nil.
  - repeat constructor. simpl. lia.
Defined.

(** * Sessions *)

Lemma serve_logged_in a r s :
  logged_in (serve a s r) = true →
  (logged_in s = true ∧ serve a s r = s) ∨
  ∃ u pw, r = Login (Some (u, pw)) ∧ Some u = AUTH_USER a ∧
          check_password_hash a (AUTH_PW_HASH a) pw = Some true ∧
          serve a s r = Session true (Some u).
Proof.
  destruct r as [[[u pw]|]|]; simpl; [| |done].
  - case_bool_decide as Hu; [|by left].
    destruct (check_password_hash a (AUTH_PW_HASH a) pw) as [[|]|] eqn:E;
      [|by left..].
    intros _. right. by exists u, pw.
  - by left.
Qed.

Lemma ws_connect_login_required a s : ws_connect a s = login_required a s.
Proof.
  unfold ws_connect, login_required.
  by destruct (logged_in s), (bool_decide (user s = AUTH_USER a)).
Qed.

(** X22: starting from an empty session, whatever requests to [login]
    and [logout] are served, [login_required] lets a request through or
    [ws_connect] accepts a socket only if one of the requests was a login with
    the user name of the credentials file and a password that
    [check_password_hash] accepted against the stored hash. *)
Theorem gate_needs_login a reqs :
  let s := foldl (serve a) (Session false None) reqs in
  login_required a s = true ∨ ws_connect a s = true →
  ∃ u pw, Login (Some (u, pw)) ∈ reqs ∧ Some u = AUTH_USER a ∧
          check_password_hash a (AUTH_PW_HASH a) pw = Some true.
Proof.
  assert (∀ s0, logged_in (foldl (serve a) s0 reqs) = true →
            logged_in s0 = true ∨
            ∃ u pw, Login (Some (u, pw)) ∈ reqs ∧ Some u = AUTH_USER a ∧
                    check_password_hash a (AUTH_PW_HASH a) pw = Some true) as H.
  { induction reqs as [|r reqs IH]; intros s0 H0; [by left|]. simpl in H0.
    destruct (IH _ H0) as [H1|(u & pw & Hin & Hu & Hc)].
    - destruct (serve_logged_in a r s0 H1) as [[? _]|(u & pw & -> & Hu & Hc & _)];
        [by left|]. right. exists u, pw. split; [by left|done].
    - right. exists u, pw. split; [by right|done]. }
  intros s Hgate.
  assert (logged_in s = true) as Hl.
  { rewrite ws_connect_login_required in Hgate. unfold login_required in Hgate.
    destruct Hgate as [Hg|Hg]; by apply andb_true_iff in Hg as [? _]. }
  by destruct (H _ Hl).
Qed.

Lemma gate_needs_login_witness :
  ∃ u pw, Login (Some (u, pw)) ∈
            [Login (Some ("admin", "wrong")); Logout;
             Login (Some ("admin", "secret"))]%string ∧
          Some u = AUTH_USER demo_auth ∧
          check_password_hash demo_auth (AUTH_PW_HASH demo_auth) pw = Some true.
Proof.
  apply (gate_needs_login demo_auth
           [Login (Some ("admin", "wrong")); Logout;
            Login (Some ("admin", "secret"))]%string).
  left. reflexivity.
Defined.

(** * The tail worker and the appended text *)

Lemma readline_partial (s : text) : LF ∉ s → CR ∉ s → readline s = (s, length s).
Proof.
  induction s as [|c s IH]; intros Hlf Hcr; simpl; [done|].
  assert (Ascii.eqb c LF = false) as ->.
  { apply Ascii.eqb_neq. intros ->. apply Hlf. by left. }
  assert (Ascii.eqb c CR = false) as ->.
  { apply Ascii.eqb_neq. intros ->. apply Hcr. by left. }
  rewrite IH; [done| |]; intros H; [apply Hlf|apply Hcr]; by right.
Qed.

Lemma readlines_cons_line (l rest : text) :
  LF ∉ l → CR ∉ l → readlines (l ++ LF :: rest) = (l ++ [LF]) :: readlines rest.
Proof.
  intros Hlf Hcr. pose proof (readline_line l rest Hlf Hcr) as Hr.
  destruct (l ++ [LF]) as [|x line] eqn:E; [by destruct l|].
  rewrite (readlines_unfold _ x line (length l) Hr).
  - do 2 f_equal. change (l ++ LF :: rest) with (l ++ [LF] ++ rest).
    rewrite app_assoc.
    replace (S (length l)) with (length (l ++ [LF]))
      by (rewrite length_app; simpl; lia).
    by rewrite drop_app_length.
  - rewrite length_app. simpl. lia.
Qed.

Lemma readlines_partial (s : text) :
  s ≠ [] → LF ∉ s → CR ∉ s → readlines s = [s].
Proof.
  intros Hne Hlf Hcr. pose proof (readline_partial s Hlf Hcr) as Hr.
  destruct s as [|x line]; [done|].
  rewrite (readlines_unfold _ x line (length line) Hr); [|done].
  by rewrite drop_ge by (simpl; lia).
Qed.

Lemma concat_readlines_aux n : ∀ s : text,
  length s ≤ n → CR ∉ s → concat (readlines s) = s.
Proof.
  induction n as [|n IH]; intros s Hn Hcr.
  - destruct s; [done|simpl in Hn; lia].
  - destruct (decide (s = [])) as [->|Hne]; [done|].
    destruct (readline_nonempty s Hne) as (x & line & k & Hr & Hk).
    rewrite (readlines_unfold s x line k Hr Hk).
    destruct (readline_no_CR s Hcr) as (R1 & _). rewrite Hr in R1. simpl in R1.
    change (concat ((x :: line) :: readlines (drop (S k) s)))
      with ((x :: line) ++ concat (readlines (drop (S k) s))).
    rewrite IH.
    + rewrite R1. apply take_drop.
    + rewrite length_drop. lia.
    + intros H. apply Hcr. by apply (subseteq_drop (S k) s).
Qed.

(** What the successive [readline] calls return is the text, cut in
    pieces. *)
Lemma concat_readlines (s : text) : CR ∉ s → concat (readlines s) = s.
Proof. by apply (concat_readlines_aux (length s)). Qed.

Lemma concat_flat_map_readlines (bs : list text) :
  Forall (λ b, CR ∉ b) bs → concat (flat_map readlines bs) = concat bs.
Proof.
  induction 1 as [|b bs Hb Hbs IH]; simpl; [done|].
  by rewrite concat_app, concat_readlines, IH.
Qed.

(** A worker at its loop top that is not told to stop reads all there is
    after its cursor, one [readline] at a time. *)
Lemma tail_drain tid n : ∀ w st content,
  length content - w_pos w ≤ n →
  threads st !! tid = Some w → w_pc w = AtLoopTop →
  must_stop (w_room w) st = false →
  file_at st (os_path_join LOG_DIR (w_file w)) = Some content →
  w_pos w ≤ length content →
  let rest := drop (w_pos w) content in
  let st' := run st (replicate (2 * length (readlines rest)) (Step tid)) in
  sent st' = sent st ++ tail_events w (readlines rest) ∧
  threads st' !! tid =
    Some (Worker (w_file w) (w_room w) AtLoopTop (length content)) ∧
  fs st' = fs st ∧ tail_threads st' = tail_threads st ∧ heap st' = heap st.
Proof.
  induction n as [|n IH]; intros w st content Hn Hw Hpc Hstop Hc Hpos rest st'.
  - assert (rest = []) as Hrest.
    { apply length_zero_iff_nil. unfold rest. rewrite length_drop. lia. }
    unfold st'. rewrite Hrest. simpl. unfold tail_events. simpl.
    rewrite app_nil_r. repeat split; try done.
    rewrite Hw. f_equal. destruct w; simpl in *. f_equal; [done|lia].
  - destruct (decide (rest = [])) as [Hrest|Hne].
    { unfold st'. rewrite Hrest. simpl. unfold tail_events. simpl.
      rewrite app_nil_r. repeat split; try done.
      rewrite Hw. f_equal.
      apply (f_equal length) in Hrest. unfold rest in Hrest.
      rewrite length_drop in Hrest. simpl in Hrest.
      destruct w; simpl in *. f_equal; [done|lia]. }
    destruct (readline_nonempty rest Hne) as (x & line & k & Hr & Hk).
    unfold st'. rewrite (readlines_unfold rest x line k Hr Hk).
    cbn [length]. rewrite Nat.mul_succ_r, (Nat.add_comm _ 2). cbn [Nat.add].
    cbn [replicate run foldl step].
    rewrite (worker_step_loop_top _ _ _ Hw Hpc), Hstop.
    pose proof (set_pc_thread tid w AtRead st Hw) as Hw1.
    set (st1 := set_pc tid w AtRead st) in *.
    set (w1 := Worker (w_file w) (w_room w) AtRead (w_pos w)) in *.
    rewrite (worker_step_read tid w1 content x line (S k) st1 Hw1 eq_refl Hc Hr).
    set (st2 := set_pos_pc _ _ _ _ _).
    set (w2 := Worker (w_file w) (w_room w) AtLoopTop (w_pos w + S k)).
    unfold rest in Hk. rewrite length_drop in Hk.
    destruct (IH w2 st2 content) as (IHs & IHt & IHf & IHtt & IHh); try done.
    + simpl. lia.
    + unfold st2, set_pos_pc. simpl. apply list_lookup_insert_eq.
      rewrite length_insert. by eapply lookup_lt_Some.
    + simpl. lia.
    + cbn [w_pos w2] in *. unfold rest in *. rewrite drop_drop in *.
      unfold run in *.
      split; [|done]. rewrite IHs. unfold st2, tail_events. simpl.
      by rewrite <- app_assoc.
Qed.

Lemma append_file_at path b content st :
  file_at st path = Some content →
  file_at (append_file path b st) path = Some (content ++ b).
Proof.
  intros Hc. unfold append_file, file_at in *. simpl.
  by rewrite lookup_insert_eq, Hc.
Qed.

(** The reader that keeps up with the writer emits, append by append, what
    [readline] cuts from the appended bytes. *)
Lemma tail_drain_schedule tid : ∀ bs w st content,
  threads st !! tid = Some w → w_pc w = AtLoopTop →
  must_stop (w_room w) st = false →
  file_at st (os_path_join LOG_DIR (w_file w)) = Some content →
  w_pos w = length content →
  let st' := run st (drain_schedule tid (os_path_join LOG_DIR (w_file w)) bs) in
  sent st' = sent st ++ tail_events w (flat_map readlines bs) ∧
  threads st' !! tid =
    Some (Worker (w_file w) (w_room w) AtLoopTop (length (content ++ concat bs))) ∧
  file_at st' (os_path_join LOG_DIR (w_file w)) = Some (content ++ concat bs).
Proof.
  induction bs as [|b bs IH]; intros w st content Hw Hpc Hstop Hc Hpos st'.
  - unfold st'. simpl. unfold tail_events. simpl. rewrite !app_nil_r.
    repeat split; try done.
    rewrite Hw. f_equal. destruct w; simpl in *. by f_equal.
  - unfold st', drain_schedule. cbn [flat_map].
    fold (drain_schedule tid (os_path_join LOG_DIR (w_file w)) bs).
    unfold run. rewrite !foldl_app. cbn [foldl step].
    set (st1 := append_file (os_path_join LOG_DIR (w_file w)) b st).
    assert (file_at st1 (os_path_join LOG_DIR (w_file w)) = Some (content ++ b))
      as Hc1 by by apply append_file_at.
    destruct (tail_drain tid (length b) w st1 (content ++ b))
      as (Ds & Dt & Df & Dtt & Dh); try done.
    { rewrite length_app. lia. }
    { rewrite length_app. lia. }
    rewrite Hpos, drop_app_length in Ds, Dt, Df, Dtt, Dh.
    unfold run in *.
    set (st2 := foldl step st1 _) in *.
    set (w2 := Worker (w_file w) (w_room w) AtLoopTop (length (content ++ b))).
    destruct (IH w2 st2 (content ++ b)) as (IHs & IHt & IHc); try done.
    + unfold must_stop. rewrite Dtt, Dh. exact Hstop.
    + unfold file_at in *. by rewrite Df.
    + cbn [w_file w_room w2] in *. unfold run in *.
      rewrite IHs, Ds, IHt, IHc. cbn [concat]. rewrite <- !app_assoc.
      unfold tail_events. by rewrite map_app.
Qed.

(** C4, as stated, fails: the file holds ["hel"] and no newline yet, and
    the worker's next read emits ["hel"] as a line event. *)
Lemma partial_line_emitted :
  ¬ (∀ st tid room f line,
       sent (worker_step tid st) = sent st ++ [(ToRoom room, LogLine f line)] →
       last line = Some LF).
Proof.
  intros H.
  specialize (H (run empty_log_state [Step 0; Append "/var/log/app.log" (str "hel")])
                0 "app.log"%string "app.log"%string (str "hel") eq_refl).
  vm_compute in H. discriminate H.
Qed.

(** C4 (amended): a tail worker stands at the end of its file and is not
    told to stop, and ASCII text without ["\r"] is appended to the file.
    When the worker reads after every append until it reaches end-of-file, it
    emits, append by append and in order, what successive [readline] calls
    return on the appended bytes, one event each: every line up to and
    including its ["\n"], and an unfinished last line at once, as it is (it is
    not buffered); these payloads, concatenated, are the appended bytes.
    Under every interleaving of appends and steps of the worker, its payloads,
    concatenated, are the appended bytes up to its read cursor, and no
    payload has a ["\n"] before its last character. *)
Theorem tail_worker_emits_appended tid w content st :
  threads st !! tid = Some w → w_pc w = AtLoopTop →
  must_stop (w_room w) st = false →
  file_at st (os_path_join LOG_DIR (w_file w)) = Some content →
  w_pos w = length content →
  let path := os_path_join LOG_DIR (w_file w) in
  (∀ bs, Forall ascii_text bs → Forall (λ b, CR ∉ b) bs →
     let st' := run st (drain_schedule tid path bs) in
     sent st' = sent st ++ tail_events w (flat_map readlines bs) ∧
     concat (flat_map readlines bs) = concat bs ∧
     threads st' !! tid =
       Some (Worker (w_file w) (w_room w) AtLoopTop (length (content ++ concat bs))) ∧
     file_at st' path = Some (content ++ concat bs)) ∧
  (∀ l rest : text, (LF ∉ l) → (CR ∉ l) →
     readlines (l ++ LF :: rest) = (l ++ [LF]) :: readlines rest) ∧
  (∀ s : text, s ≠ [] → (LF ∉ s) → (CR ∉ s) → readlines s = [s]) ∧
  (∀ l, Forall (is_tail_action tid path) l → ascii_text (appended path l) →
     (CR ∉ content) →
     ∃ w' chunks,
       threads (run st l) !! tid = Some w' ∧
       file_at (run st l) path = Some (content ++ appended path l) ∧
       (length content ≤ w_pos w') ∧
       (w_pos w' ≤ length (content ++ appended path l)) ∧
       sent (run st l) = sent st ++ tail_events w chunks ∧
       concat chunks = take (w_pos w' - length content) (appended path l) ∧
       Forall line_or_partial chunks).
Proof.
  intros Hw Hpc Hstop Hc Hpos path.
  split; [|split; [exact readlines_cons_line|split; [exact readlines_partial|]]].
  - intros bs _ Hcr st'.
    destruct (tail_drain_schedule tid bs w st content Hw Hpc Hstop Hc Hpos)
      as (Hs & Ht & Hf).
    split; [done|]. split; [by apply concat_flat_map_readlines|done].
  - intros l Hl _ Hcr.
    assert (tail_inv tid w st st) as Hinv.
    { exists w, content, []. repeat split; try done; try lia.
      - congruence.
      - unfold tail_events. simpl. by rewrite app_nil_r.
      - by rewrite Nat.sub_diag. }
    pose proof (tail_inv_run _ _ _ _ _ Hinv Hl)
      as (w' & content' & chunks & Hw' & _ & _ & _ & Hc' & _ & Hp1 & Hp2 & Hs
          & Hcat & Hch).
    rewrite (tail_run_file tid _ l st content Hc Hl) in Hc'. injection Hc' as <-.
    exists w', chunks. rewrite Hpos in *.
    rewrite drop_app_length in Hcat.
    repeat split; try done. by apply (tail_run_file tid).
Qed.

Lemma tail_worker_emits_appended_witness :
  sent (run empty_log_state
          (drain_schedule 0 "/var/log/app.log" [str "hel"; str "lo" ++ [LF]])) =
    sent empty_log_state ++
    [(ToRoom "app.log", LogLine "app.log" (str "hel"));
     (ToRoom "app.log", LogLine "app.log" (str "lo" ++ [LF]))].
Proof.
  destruct (tail_worker_emits_appended 0 (Worker "app.log" "app.log" AtLoopTop 0) []
              empty_log_state eq_refl eq_refl eq_refl eq_refl eq_refl)
    as (H & _).
  destruct (H [str "hel"; str "lo" ++ [LF]]) as (Hs & _).
  - apply (bool_decide_unpack _). vm_compute. exact I.
  - repeat constructor; apply (bool_decide_unpack _); vm_compute; exact I.
  - exact Hs.
Defined.
